(** * RunawayBH: analytical equilibrium profiles around a black hole

    A shallow embedding of [AnalyticalSol/isothermal_sol.py] and
    [AnalyticalSol/polytropic_sol.py], and the properties of their profile
    functions.

    Arithmetic model.  The scripts compute in float64.  A finite float is
    read here as the real number it stands for and the four operations,
    [sqrt], [exp] and the power are exact on finite operands: rounding,
    overflow and underflow are not modelled.  What is modelled of IEEE 754
    is the special values that numpy creates out of finite operands (a zero
    divisor, the square root or a fractional power of a negative number)
    and how they propagate.  Zero carries no sign: a zero divisor is read
    as [+0.0].

    Module-level quantities built from Python floats only are reals [R];
    every value that went through numpy (an [np.float64] or an array
    element) is an [fval].

    What this reading keeps of the float64 program is its values up to
    rounding, its weak orders and its special values.  It does not keep a
    strict order between nearby arguments (they round to the same float),
    a strict sign or finiteness where a square or a power overflows or
    underflows, nor bit-exact equality of an evaluated line.  Module [F64]
    below evaluates the potential, the free-fall time and the table lookup
    in binary64 itself, and the statements that depend on the difference
    are made with it. *)

From Stdlib Require Import Reals Lra Lia List ZArith Bool Sorting.Permutation Sorting.Sorted.
From Stdlib Require String Ascii Decimal DecimalNat DecimalString.
From Stdlib Require PrimFloat.
Import ListNotations.

Local Open Scope R_scope.

(** ** numpy float64 values *)

Module NP.

Inductive fval : Type :=
| Fin (x : R)
| PInf
| NInf
| NaN.

Definition Rltb (x y : R) : bool := if Rlt_dec x y then true else false.

(** [x * inf] for a finite [x]. *)
Definition inf_of_sign (x : R) : fval :=
  if Rlt_dec 0 x then PInf else if Rlt_dec x 0 then NInf else NaN.

Definition fneg (a : fval) : fval :=
  match a with
  | Fin x => Fin (- x)
  | PInf => NInf
  | NInf => PInf
  | NaN => NaN
  end.

Definition fadd (a b : fval) : fval :=
  match a, b with
  | Fin x, Fin y => Fin (x + y)
  | NaN, _ | _, NaN => NaN
  | PInf, NInf | NInf, PInf => NaN
  | PInf, _ | _, PInf => PInf
  | NInf, _ | _, NInf => NInf
  end.

Definition fsub (a b : fval) : fval := fadd a (fneg b).

Definition fmul (a b : fval) : fval :=
  match a, b with
  | Fin x, Fin y => Fin (x * y)
  | NaN, _ | _, NaN => NaN
  | Fin x, PInf | PInf, Fin x => inf_of_sign x
  | Fin x, NInf | NInf, Fin x => inf_of_sign (- x)
  | PInf, PInf | NInf, NInf => PInf
  | PInf, NInf | NInf, PInf => NInf
  end.

Definition fdiv (a b : fval) : fval :=
  match a, b with
  | Fin x, Fin y => if Req_dec_T y 0 then inf_of_sign x else Fin (x / y)
  | NaN, _ | _, NaN => NaN
  | Fin _, _ => Fin 0
  | PInf, Fin y => if Rlt_dec y 0 then NInf else PInf
  | NInf, Fin y => if Rlt_dec y 0 then PInf else NInf
  | _, _ => NaN
  end.

(** [np.sqrt] *)
Definition fsqrt (a : fval) : fval :=
  match a with
  | Fin x => if Rlt_dec x 0 then NaN else Fin (sqrt x)
  | PInf => PInf
  | NInf | NaN => NaN
  end.

(** [np.exp] *)
Definition fexp (a : fval) : fval :=
  match a with
  | Fin x => Fin (exp x)
  | PInf => PInf
  | NInf => Fin 0
  | NaN => NaN
  end.

(** [a ** n] for an integer literal [n] (as in [epsilon**2]). *)
Definition fpowi (a : fval) (n : nat) : fval :=
  match a with
  | Fin x => Fin (x ^ n)
  | PInf => if Nat.eqb n 0 then Fin 1 else PInf
  | NInf => if Nat.eqb n 0 then Fin 1 else if Nat.odd n then NInf else PInf
  | NaN => if Nat.eqb n 0 then Fin 1 else NaN
  end.

(** Whether a real exponent is a whole number. *)
Definition is_int (y : R) : bool :=
  if Req_dec_T (IZR (Int_part y)) y then true else false.

(** [a ** y] for a float exponent [y] ([np.power]): the C [pow].  A negative
    base with a fractional exponent is [nan]; a zero base with a negative
    exponent is [inf]. *)
Definition fpow (a : fval) (y : R) : fval :=
  if Req_dec_T y 0 then Fin 1 else
  match a with
  | Fin x =>
      if Rlt_dec 0 x then Fin (Rpower x y)
      else if Req_dec_T x 0 then (if Rlt_dec 0 y then Fin 0 else PInf)
      else if is_int y then Fin (powerRZ x (Int_part y))
      else NaN
  | PInf => if Rlt_dec 0 y then PInf else Fin 0
  | NInf =>
      if Rlt_dec 0 y
      then (if is_int y && Z.odd (Int_part y) then NInf else PInf)
      else Fin 0
  | NaN => NaN
  end.

(** [a < y], the comparison of an array element with a float: false on
    [nan]. *)
Definition flt (a : fval) (y : R) : bool :=
  match a with
  | Fin x => Rltb x y
  | NInf => true
  | PInf | NaN => false
  end.

Definition is_finite (a : fval) : Prop := exists x, a = Fin x.

End NP.

Import NP.

Declare Scope fval_scope.
Delimit Scope fval_scope with fv.
Bind Scope fval_scope with fval.
Notation "a + b" := (fadd a b) : fval_scope.
Notation "a - b" := (fsub a b) : fval_scope.
Notation "a * b" := (fmul a b) : fval_scope.
Notation "a / b" := (fdiv a b) : fval_scope.
Notation "- a" := (fneg a) : fval_scope.

(** ** Constants (the [#Constants] block, the same in both scripts) *)

Definition G    : R := 6.67e-8.    (* cm^3/g/s^2 *)
Definition kB   : R := 1.38e-16.   (* erg/K *)
Definition mp   : R := 1.67e-24.   (* g *)
Definition pc   : R := 3.086e18.   (* cm *)
Definition Msun : R := 1.989e33.   (* g *)
Definition mu   : R := 1.0.
Definition gamma : R := 5.0 / 3.0. (* polytropic_sol.py only *)
Definition gm1  : R := gamma - 1.

(** ** isothermal_sol.py *)

Module Isothermal.

(** The profile functions read the module-level parameters [M_bh], [rho0],
    [cs_amb] and [epsilon]; the last two are numpy scalars.  [Profiles]
    holds the function bodies over these parameters; the functions of the
    script as shipped follow the [#Parameters] block below. *)
Module Profiles.
Section Profiles.
Variables (M_bh rho0 : R) (cs_amb epsilon : fval).

Definition Phi (r : R) : fval :=
  (Fin (-1 * G * M_bh) / fsqrt (Fin (r ^ 2) + fpowi epsilon 2))%fv.

Definition density_profile (r : R) : fval :=
  (Fin rho0 * fexp ((- Phi r + Phi 0) / fpowi cs_amb 2))%fv.

Definition pressure_profile (r : R) : fval :=
  (density_profile r * fpowi cs_amb 2)%fv.

Definition temperature_profile (r : R) : fval :=
  ((pressure_profile r * Fin mu * Fin mp) / (density_profile r * Fin kB))%fv.
End Profiles.
End Profiles.

(** The [#Parameters] block of the script. *)
Definition T_amb   : R := 1e7.
Definition cs_amb  : fval := fsqrt (Fin (kB * T_amb / (mu * mp))).
Definition v_bh    : R := 1000 * 1e5.
Definition rho0    : R := 1e-3 * mp.
Definition M_bh    : R := 2e7 * Msun.
Definition R_bondi : fval :=
  (Fin (2 * G * M_bh) / (fpowi cs_amb 2 + Fin (v_bh ^ 2)))%fv.
Definition epsilon : fval := R_bondi.

Definition Phi : R -> fval := Profiles.Phi M_bh epsilon.
Definition density_profile : R -> fval :=
  Profiles.density_profile M_bh rho0 cs_amb epsilon.
Definition pressure_profile : R -> fval :=
  Profiles.pressure_profile M_bh rho0 cs_amb epsilon.
Definition temperature_profile : R -> fval :=
  Profiles.temperature_profile M_bh rho0 cs_amb epsilon.

End Isothermal.

(** ** polytropic_sol.py *)

Module Polytropic.

(** What [rho] prints, in order. *)
Inductive line : Type :=
| Term1Pow (vs : list fval)   (* print("term1=", (term1**(1/gm1))/mp) *)
| Term1 (vs : list fval)      (* print("term1 =", term1) *)
| Term2 (v : fval)            (* print("term2 =", term2) *)
| Term2Pow (v : fval).        (* print((term2**(1/gm1))/mp) *)

(** A computation that prints: the lines written, then the value. *)
Definition Out (A : Type) : Type := (list line * A)%type.

Definition ret {A} (a : A) : Out A := ([], a).

Definition bind {A B} (m : Out A) (k : A -> Out B) : Out B :=
  let (l1, a) := m in let (l2, b) := k a in (l1 ++ l2, b).

Definition print (l : line) : Out unit := ([l], tt).

Notation "x <- m ;; k" := (bind m (fun x => k))
  (at level 61, m at next level, right associativity).
Notation "m ;; k" := (bind m (fun _ => k))
  (at level 61, right associativity).

(** The functions read the module-level parameters [M_bh], [epsilon],
    [r_vir], [rho_vir] and [K], all Python floats.  [Profiles] holds the
    function bodies over these parameters; the functions of the script as
    shipped follow the [#Parameters] block below.  Python raises
    [ZeroDivisionError] on [gm1/(K*gamma)] when [K = 0]; the statements
    below keep [K] away from zero. *)
Module Profiles.
Section Profiles.
Variables (M_bh epsilon r_vir rho_vir K : R).

(** Gravitational potential, element-wise. *)
Definition Phi (r : R) : fval :=
  (Fin (-1 * G * M_bh) / fsqrt (Fin (r ^ 2 + epsilon ^ 2)))%fv.

(** The two local variables of [rho]; [term1] is an array over the
    radii, [term2] a scalar.  What numpy itself writes to stderr on an
    invalid power (a [RuntimeWarning]) is not part of the output modelled
    here. *)
Definition term1 (r : R) : fval := (Fin (-1 * (gm1 / (K * gamma))) * Phi r)%fv.
Definition term2 : fval := (Fin (-1 * (gm1 / (K * gamma))) * Phi r_vir)%fv.

Definition rho (r : list R) : Out (list fval) :=
  let t1 := map term1 r in
  let t2 := term2 in
  print (Term1Pow (map (fun t => fpow t (1 / gm1) / Fin mp)%fv t1)) ;;
  (if existsb (fun t => flt t 0) t1 || flt t2 0
   then print (Term1 t1) ;; print (Term2 t2)
   else ret tt) ;;
  print (Term2Pow (fpow t2 (1 / gm1) / Fin mp)%fv) ;;
  ret (map (fun t => Fin rho_vir + fpow t (1 / gm1) - fpow t2 (1 / gm1))%fv t1).

Definition pressure (r : list R) : Out (list fval) :=
  d <- rho r ;;
  ret (map (fun x => Fin K * fpow x gamma)%fv d).

Definition entropy (r : list R) : Out (list fval) :=
  p <- pressure r ;;
  d <- rho r ;;
  ret (map (fun pd => fst pd / fpow (snd pd) gamma)%fv (combine p d)).

Definition free_fall_time (r : R) : fval :=
  fsqrt (fpow (Fin (r ^ 2 + epsilon ^ 2)) 1.5 / Fin (2 * G * M_bh))%fv.

Definition Temperature (r : list R) : Out (list fval) :=
  d <- rho r ;;
  ret (map (fun x => Fin (K * mu * mp / kB) * fpow x gm1)%fv d).
End Profiles.
End Profiles.

(** The cooling table.  [cooltable.dat] is not part of the sources: the
    rows that [np.loadtxt] returns are a parameter, a list of
    (temperature, Lambda) pairs.  [data[:, 0]] needs a two-dimensional
    array, which [np.loadtxt] returns for two rows or more. *)
Section Cooling.
Variable data : list (R * R).

Definition T_tab : list R := map fst data.
Definition Lambda_tab : list R := map snd data.

(** [scipy.interpolate.interp1d(x, y, kind='linear', bounds_error=False,
    fill_value='extrapolate')].  With [assume_sorted=False] the
    constructor sorts the points by [x] (a stable sort). *)
Fixpoint insert_point (p : R * R) (l : list (R * R)) : list (R * R) :=
  match l with
  | [] => [p]
  | q :: l' =>
      if Rle_dec (fst p) (fst q) then p :: l else q :: insert_point p l'
  end.

Fixpoint sort_points (l : list (R * R)) : list (R * R) :=
  match l with
  | [] => []
  | p :: l' => insert_point p (sort_points l')
  end.

(** [np.searchsorted(x, v)], side ['left']: the first index whose entry
    is not below [v]. *)
Fixpoint searchsorted (x : list R) (v : R) : nat :=
  match x with
  | [] => 0
  | a :: x' => if Rlt_dec a v then S (searchsorted x' v) else 0
  end.

(** The evaluation [interp1d._call_linear]: the index is clipped to
    [1 .. len(x)-1], then the line through the two neighbours is
    evaluated; no bounds are checked when extrapolating. *)
Definition call_linear (x y : list R) (x_new : R) : fval :=
  let hi := Nat.min (Nat.max (searchsorted x x_new) 1) (length x - 1) in
  let lo := (hi - 1)%nat in
  let x_lo := nth lo x 0 in
  let x_hi := nth hi x 0 in
  let y_lo := nth lo y 0 in
  let y_hi := nth hi y 0 in
  let slope := (Fin (y_hi - y_lo) / Fin (x_hi - x_lo))%fv in
  (slope * Fin (x_new - x_lo) + Fin y_lo)%fv.

Definition Lambda_interp (T : R) : fval :=
  let pts := sort_points (combine T_tab Lambda_tab) in
  call_linear (map fst pts) (map snd pts) T.

Definition cool_lambda (T : R) : fval := Lambda_interp T.
End Cooling.

(** [cool_lambda] on an element of an array of temperatures, which can be
    [nan] or infinite.  [np.searchsorted] orders [nan] and [+inf] after
    every entry of the table and [-inf] before; the line is then evaluated
    in float arithmetic as it is for a finite query. *)
Section CoolingArray.
Variable data : list (R * R).

Definition searchsorted_val (x : list R) (v : fval) : nat :=
  match v with
  | Fin t => searchsorted x t
  | NInf => 0
  | PInf | NaN => length x
  end.

Definition call_linear_val (x y : list R) (x_new : fval) : fval :=
  let hi := Nat.min (Nat.max (searchsorted_val x x_new) 1) (length x - 1) in
  let lo := (hi - 1)%nat in
  let x_lo := nth lo x 0 in
  let x_hi := nth hi x 0 in
  let y_lo := nth lo y 0 in
  let y_hi := nth hi y 0 in
  let slope := (Fin (y_hi - y_lo) / Fin (x_hi - x_lo))%fv in
  (slope * (x_new - Fin x_lo) + Fin y_lo)%fv.

Definition cool_lambda_val (T : fval) : fval :=
  let pts := sort_points (combine (T_tab data) (Lambda_tab data)) in
  call_linear_val (map fst pts) (map snd pts) T.
End CoolingArray.

(** [cooling_time] reads the parameters of [Profiles] and the table. *)
Module Diagnostics.
Section Diagnostics.
Variables (M_bh epsilon r_vir rho_vir K : R) (data : list (R * R)).

Definition cooling_time (r : list R) : Out (list fval) :=
  d <- Profiles.rho M_bh epsilon r_vir rho_vir K r ;;
  let n := map (fun x => x / Fin (mu * mp))%fv d in
  p <- Profiles.pressure M_bh epsilon r_vir rho_vir K r ;;
  T <- Profiles.Temperature M_bh epsilon r_vir rho_vir K r ;;
  ret (map (fun npT =>
              (Fin gamma * snd (fst npT))
              / (Fin gm1 * fpowi (fst (fst npT)) 2
                 * cool_lambda_val data (snd npT)))%fv
           (combine (combine n p) T)).
End Diagnostics.
End Diagnostics.

(** The [#Parameters] block of the script.  The base of the Python power
    in [K] is positive ([rho_vir_pos] below), where it is [Rpower]. *)
Definition v_bh    : R := 1000 * 1e5.
Definition M_bh    : R := 2e7 * Msun.
Definition R_bondi : R := 2 * G * M_bh / (v_bh ^ 2).
Definition epsilon : R := 10 * pc.
Definition r_vir   : R := 1e3 * pc.
Definition T_vir   : R := G * M_bh * mp / (r_vir * kB).
Definition rho_cgm : R := 1e-3 * mp.
Definition T_cgm   : R := 1e6.
Definition rho_vir : R := rho_cgm * T_cgm / T_vir.
Definition K       : R := (kB * T_vir / (mu * mp)) * Rpower rho_vir (1 - gamma).

Definition Phi : R -> fval := Profiles.Phi M_bh epsilon.
Definition term1 : R -> fval := Profiles.term1 M_bh epsilon K.
Definition term2 : fval := Profiles.term2 M_bh epsilon r_vir K.
Definition rho : list R -> Out (list fval) :=
  Profiles.rho M_bh epsilon r_vir rho_vir K.
Definition pressure : list R -> Out (list fval) :=
  Profiles.pressure M_bh epsilon r_vir rho_vir K.
Definition entropy : list R -> Out (list fval) :=
  Profiles.entropy M_bh epsilon r_vir rho_vir K.
Definition free_fall_time : R -> fval := Profiles.free_fall_time M_bh epsilon.
Definition Temperature : list R -> Out (list fval) :=
  Profiles.Temperature M_bh epsilon r_vir rho_vir K.
Definition cooling_time (data : list (R * R)) : list R -> Out (list fval) :=
  Diagnostics.cooling_time M_bh epsilon r_vir rho_vir K data.

End Polytropic.

(** ** unit_conversion.py *)

Module UnitConversion.

Definition kpc  : R := 3.086e21.   (* cm *)
Definition s_yr : R := 3.154e7.    (* s *)

(** The script is one sequence of assignments.  [Derived] holds the
    quantities it computes, over the parameters and the code units it
    sets by hand; the values of the script as shipped follow.  All are
    Python floats but [cs_cgm]; a Python power with a float exponent is
    [Rpower], its value on the positive bases that occur (Python raises
    [ZeroDivisionError] on a zero divisor). *)
Module Derived.
Section Derived.
Variables (M_bh v_bh r_vir rho_cgm T_cgm : R) (L_code v_code rho_code : R).

Definition R_bondi : R := 2 * G * M_bh / (v_bh ^ 2).
Definition epsilon : R := 0.1 * R_bondi.
Definition T_vir   : R := G * M_bh * mp / (r_vir * kB).
Definition cs_cgm  : fval := fsqrt (Fin (kB * T_cgm / (mu * mp))).
Definition rho_vir : R := rho_cgm * T_cgm / T_vir.
Definition K       : R := (kB * T_vir / (mu * mp)) * Rpower rho_vir (1 - gamma).

Definition M_code  : R := rho_code * L_code ^ 3.
Definition t_code  : R := L_code / v_code.
Definition P_code  : R := rho_code * v_code ^ 2.
Definition T_code  : R := (mu * mp / kB) * (v_code ^ 2).

Definition G_code  : R := G * (rho_code * t_code ^ 2).
Definition K_code  : R := K * (Rpower rho_code gamma / P_code).

Definition P_cgm   : R := rho_cgm * kB * T_cgm / (mu * mp).
Definition P_vir   : R := K_code * Rpower (rho_vir / rho_code) gamma * P_code.
End Derived.
End Derived.

Definition v_bh     : R := 1000 * 1e5.
Definition M_bh     : R := 2e7 * Msun.
Definition r_vir    : R := kpc.
Definition rho_cgm  : R := 1e-3 * mp.
Definition T_cgm    : R := 1e6.
Definition L_code   : R := 1.0 * kpc.
Definition v_code   : R := 1e6.
Definition rho_code : R := 1.0 * mp.

End UnitConversion.

(** ** combine_plots.py: the names and the order of the frames

    Both [combine_plots.py] scripts write one composite image per time
    step and collect them again, ordered by the number in the name.  Only
    the naming and the ordering are modelled; reading, drawing and
    encoding the images is the work of matplotlib, PIL and OpenCV. *)

Module CombinePlots.
Import String Ascii DecimalString.
Local Open Scope string_scope.

(** [str(t)] for a step [t] of [range(NUM_FILES)]. *)
Definition str_int (t : nat) : string :=
  NilEmpty.string_of_uint (Nat.to_uint t).

(** [f"t_{t}.png"] *)
Definition output_file_name (t : nat) : string :=
  "t_" ++ str_int t ++ ".png".

(** [name.rfind(c)]: the last index of [c], or [None] for Python's -1. *)
Fixpoint rfind (c : ascii) (s : string) : option nat :=
  match s with
  | EmptyString => None
  | String a s' =>
      match rfind c s' with
      | Some i => Some (S i)
      | None => if Ascii.eqb a c then Some 0%nat else None
      end
  end.

(** [Path(name).stem] for a plain file name: the name up to its last dot,
    when the dot is neither first nor last. *)
Definition stem (name : string) : string :=
  match rfind "." name with
  | Some i =>
      if (0 <? i)%nat && (i <? String.length name - 1)%nat
      then substring 0 i name
      else name
  | None => name
  end.

(** [s.split(c)] for a separator of one character. *)
Fixpoint split (c : ascii) (s : string) : list string :=
  match s with
  | EmptyString => [EmptyString]
  | String a s' =>
      if Ascii.eqb a c then EmptyString :: split c s'
      else match split c s' with
           | p :: ps => String a p :: ps
           | [] => [String a EmptyString]
           end
  end.

(** The sort key and the sort read numbers with Python's [int], which is
    a parameter here; [None] is the [ValueError] it raises. *)
Section Order.
Variable int : string -> option Z.

(** [lambda x: int(x.stem.split('_')[1])]; [None] when it raises
    ([IndexError] or [ValueError]). *)
Definition key (name : string) : option Z :=
  match nth_error (split "_" (stem name)) 1 with
  | Some piece => int piece
  | None => None
  end.

(** [sorted(names, key=key)]: the keys are computed first (an exception
    ends the call), then the names are put in ascending key order, names
    with equal keys staying in their order. *)
Fixpoint keyed (names : list string) : option (list (Z * string)) :=
  match names with
  | [] => Some []
  | n :: names' =>
      match key n, keyed names' with
      | Some k, Some l => Some ((k, n) :: l)
      | _, _ => None
      end
  end.

Fixpoint insert_keyed (x : Z * string) (l : list (Z * string))
  : list (Z * string) :=
  match l with
  | [] => [x]
  | y :: l' => if (fst x <=? fst y)%Z then x :: l else y :: insert_keyed x l'
  end.

Fixpoint sort_keyed (l : list (Z * string)) : list (Z * string) :=
  match l with
  | [] => []
  | x :: l' => insert_keyed x (sort_keyed l')
  end.

Definition sorted (names : list string) : option (list string) :=
  match keyed names with
  | Some l => Some (map snd (sort_keyed l))
  | None => None
  end.
End Order.

End CombinePlots.

(** ** The same functions in binary64

    IEEE 754 binary64 with round-to-nearest-even, as numpy and Python
    compute.  A decimal literal is the nearest binary64 value, as in
    Python.  [x**2] is the rounded product [x * x].  [np.exp] and
    [np.pow] with a fractional exponent are library functions without a
    binary64 definition here: where one is needed it is a parameter. *)

Module F64.
Import PrimFloat.
Local Open Scope float_scope.
#[local] Set Warnings "-inexact-float".

Definition G    : float := 6.67e-8.
Definition kB   : float := 1.38e-16.
Definition mp   : float := 1.67e-24.
Definition pc   : float := 3.086e18.
Definition Msun : float := 1.989e33.
Definition mu   : float := 1.0.

(** [Phi] has the same body in both scripts; [free_fall_time] is the one
    of [polytropic_sol.py]. *)
Section Profiles.
Variables (M_bh epsilon : float).

Definition Phi (r : float) : float :=
  -1 * G * M_bh / sqrt (r * r + epsilon * epsilon).

Variable pow : float -> float -> float.

Definition free_fall_time (r : float) : float :=
  sqrt (pow (r * r + epsilon * epsilon) 1.5 / (2 * G * M_bh)).
End Profiles.

(** The parameters of [isothermal_sol.py]. *)
Module Isothermal.
Definition T_amb   : float := 1e7.
Definition cs_amb  : float := sqrt (kB * T_amb / (mu * mp)).
Definition v_bh    : float := 1000 * 1e5.
Definition M_bh    : float := 2e7 * Msun.
Definition R_bondi : float := 2 * G * M_bh / (cs_amb * cs_amb + v_bh * v_bh).
Definition epsilon : float := R_bondi.
Definition Phi : float -> float := F64.Phi M_bh epsilon.
End Isothermal.

(** The parameters of [polytropic_sol.py]. *)
Module Polytropic.
Definition M_bh    : float := 2e7 * Msun.
Definition epsilon : float := 10 * pc.
Definition Phi : float -> float := F64.Phi M_bh epsilon.
Definition free_fall_time (pow : float -> float -> float) : float -> float :=
  F64.free_fall_time M_bh epsilon pow.
End Polytropic.

(** The table lookup, for a table and a query without [nan]. *)
Fixpoint insert_point (p : float * float) (l : list (float * float))
  : list (float * float) :=
  match l with
  | [] => [p]
  | q :: l' => if leb (fst p) (fst q) then p :: l else q :: insert_point p l'
  end.

Fixpoint sort_points (l : list (float * float)) : list (float * float) :=
  match l with
  | [] => []
  | p :: l' => insert_point p (sort_points l')
  end.

Fixpoint searchsorted (x : list float) (v : float) : nat :=
  match x with
  | [] => 0
  | a :: x' => if ltb a v then S (searchsorted x' v) else 0
  end.

Definition call_linear (x y : list float) (x_new : float) : float :=
  let hi := Nat.min (Nat.max (searchsorted x x_new) 1) (length x - 1) in
  let lo := (hi - 1)%nat in
  let x_lo := nth lo x 0 in
  let x_hi := nth hi x 0 in
  let y_lo := nth lo y 0 in
  let y_hi := nth hi y 0 in
  let slope := (y_hi - y_lo) / (x_hi - x_lo) in
  slope * (x_new - x_lo) + y_lo.

Definition cool_lambda (data : list (float * float)) (T : float) : float :=
  let pts := sort_points data in
  call_linear (map fst pts) (map snd pts) T.

End F64.

(** ** Closed forms the statements compare against *)

(** The square of the ambient sound speed and the Bondi radius of
    [isothermal_sol.py], as real numbers. *)
Definition cs2 : R := kB * Isothermal.T_amb / (mu * mp).
Definition Rb : R := 2 * G * Isothermal.M_bh / (cs2 + Isothermal.v_bh ^ 2).

(** The factor of [Phi] in [term1] and [term2], sign apart. *)
Definition term_coeff (K : R) : R := gm1 / (K * gamma).

(** One element of the array that [rho] returns, and the condition of its
    [if]. *)
Definition rho_at (M eps r_vir rho_vir K r : R) : fval :=
  (Fin rho_vir + fpow (Polytropic.Profiles.term1 M eps K r) (1 / gm1)
   - fpow (Polytropic.Profiles.term2 M eps r_vir K) (1 / gm1))%fv.

Definition term_negative (M eps r_vir K : R) (rs : list R) : bool :=
  existsb (fun t => flt t 0) (map (Polytropic.Profiles.term1 M eps K) rs)
  || flt (Polytropic.Profiles.term2 M eps r_vir K) 0.

(** One element of what [Temperature] and [cooling_time] return, from the
    element [d] of [rho]. *)
Definition temperature_at (K : R) (d : fval) : fval :=
  (Fin (K * mu * mp / kB) * fpow d gm1)%fv.

Definition cooling_time_at (K : R) (data : list (R * R)) (d : fval) : fval :=
  ((Fin gamma * (Fin K * fpow d gamma))
   / (Fin gm1 * fpowi (d / Fin (mu * mp)) 2
      * Polytropic.cool_lambda_val data (temperature_at K d)))%fv.

(** The polytropic constant of a reference state, as the scripts compute
    it. *)
Definition polytropic_constant (T_vir rho_vir : R) : R :=
  (kB * T_vir / (mu * mp)) * Rpower rho_vir (1 - gamma).

(** The frame of step [t] with its sort key. *)
Definition keyed_frame (t : nat) : Z * String.string :=
  (Z.of_nat t, CombinePlots.output_file_name t).

(** Python's [int] on a string of decimal digits, to instantiate the
    parameter of [CombinePlots.key]. *)
Definition int_of_digits (s : String.string) : option Z :=
  option_map (fun u => Z.of_nat (Nat.of_uint u))
             (DecimalString.NilEmpty.uint_of_string s).

(** * Properties *)

(** ** Finite operands *)

Lemma fsqrt_Fin (x : R) : 0 <= x -> fsqrt (Fin x) = Fin (sqrt x).
Proof.
  intros Hx. unfold fsqrt. destruct (Rlt_dec x 0) as [Hn|_]; [lra|reflexivity].
Qed.

Lemma fdiv_Fin (x y : R) : y <> 0 -> (Fin x / Fin y)%fv = Fin (x / y).
Proof.
  intros Hy. unfold fdiv. destruct (Req_dec_T y 0) as [E|_]; [contradiction|reflexivity].
Qed.

Lemma fpow_pos (x y : R) : 0 < x -> fpow (Fin x) y = Fin (Rpower x y).
Proof.
  intros Hx. unfold fpow. destruct (Req_dec_T y 0) as [E|_].
  - subst y. now rewrite Rpower_O.
  - destruct (Rlt_dec 0 x) as [_|Hn]; [reflexivity|contradiction].
Qed.

Lemma flt_Fin_false (x y : R) : y <= x -> flt (Fin x) y = false.
Proof.
  intros H. unfold flt, Rltb. destruct (Rlt_dec x y); [lra|reflexivity].
Qed.

Lemma flt_Fin_true (x y : R) : x < y -> flt (Fin x) y = true.
Proof.
  intros H. unfold flt, Rltb. destruct (Rlt_dec x y); [reflexivity|contradiction].
Qed.

(** ** The softened potential *)

Lemma soft_radius_pos (r eps : R) : 0 < eps -> 0 < sqrt (r ^ 2 + eps ^ 2).
Proof. intros He. apply sqrt_lt_R0. nra. Qed.

Lemma soft_radius_incr (r1 r2 eps : R) :
  0 <= r1 -> r1 < r2 -> sqrt (r1 ^ 2 + eps ^ 2) < sqrt (r2 ^ 2 + eps ^ 2).
Proof. intros H1 H2. apply sqrt_lt_1_alt. nra. Qed.

Lemma Phi_iso_closed (M eps r : R) :
  0 < eps ->
  Isothermal.Profiles.Phi M (Fin eps) r = Fin (- G * M / sqrt (r ^ 2 + eps ^ 2)).
Proof.
  intros He. unfold Isothermal.Profiles.Phi. cbn [fpowi fadd].
  rewrite fsqrt_Fin by nra.
  rewrite fdiv_Fin by (apply Rgt_not_eq, soft_radius_pos; assumption).
  f_equal. lra.
Qed.

Lemma Phi_poly_closed (M eps r : R) :
  0 < eps ->
  Polytropic.Profiles.Phi M eps r = Fin (- G * M / sqrt (r ^ 2 + eps ^ 2)).
Proof.
  intros He. unfold Polytropic.Profiles.Phi.
  rewrite fsqrt_Fin by nra.
  rewrite fdiv_Fin by (apply Rgt_not_eq, soft_radius_pos; assumption).
  f_equal. lra.
Qed.

Lemma G_pos : 0 < G.
Proof. unfold G. lra. Qed.

Lemma potential_neg (M eps r : R) :
  0 < M -> 0 < eps -> - G * M / sqrt (r ^ 2 + eps ^ 2) < 0.
Proof.
  intros HM He. pose proof (soft_radius_pos r eps He) as Hs. pose proof G_pos.
  unfold Rdiv. apply Rmult_neg_pos; [nra|]. now apply Rinv_0_lt_compat.
Qed.

Lemma potential_incr (M eps r1 r2 : R) :
  0 < M -> 0 < eps -> 0 <= r1 -> r1 < r2 ->
  - G * M / sqrt (r1 ^ 2 + eps ^ 2) < - G * M / sqrt (r2 ^ 2 + eps ^ 2).
Proof.
  intros HM He H1 H2. pose proof G_pos as HG.
  pose proof (soft_radius_pos r1 eps He) as Hs1.
  pose proof (soft_radius_incr r1 r2 eps H1 H2) as Hlt.
  assert (Hinv : / sqrt (r2 ^ 2 + eps ^ 2) < / sqrt (r1 ^ 2 + eps ^ 2)).
  { apply Rinv_lt_contravar; [|assumption]. apply Rmult_lt_0_compat; lra. }
  unfold Rdiv. assert (0 < G * M) by nra. nra.
Qed.

Lemma poly_M_bh_pos : 0 < Polytropic.M_bh.
Proof. unfold Polytropic.M_bh, Msun. lra. Qed.

Lemma poly_epsilon_pos : 0 < Polytropic.epsilon.
Proof. unfold Polytropic.epsilon, pc. lra. Qed.

Section PotentialBinary64.
Import PrimFloat.
Local Open Scope float_scope.
#[local] Set Warnings "-inexact-float".

(** C1, as stated, fails in float64: with the shipped parameters the
    potential is the same float at [r = 0] and [r = 1] in both scripts
    ([1] is absorbed by [epsilon**2]), so it is not strictly increasing,
    and at [r = 1e155], where [r**2] overflows, it is [-0.0], which is not
    below zero. *)
Lemma Phi_float64_ties_and_zero :
  F64.Polytropic.Phi 0 = F64.Polytropic.Phi 1 /\
  F64.Isothermal.Phi 0 = F64.Isothermal.Phi 1 /\
  ltb (F64.Polytropic.Phi 1e155) 0 = false.
Proof. repeat split; vm_compute; reflexivity. Qed.
End PotentialBinary64.

(** C1, amended.  With a softening length [eps > 0] and a mass [M > 0],
    at every radius [r >= 0] the potential [Phi] of both scripts returns
    the finite value [-G*M/sqrt(r^2+eps^2)] (up to rounding), which is
    never positive, and negative while [r^2] does not overflow
    ([r <= 1e150]); the value does not decrease when [r] grows. *)
Theorem Phi_softened_nonpositive_nondecreasing (M eps : R) :
  0 < M -> 0 < eps ->
  (forall r, 0 <= r ->
     exists x, x = - G * M / sqrt (r ^ 2 + eps ^ 2) /\
       Isothermal.Profiles.Phi M (Fin eps) r = Fin x /\
       Polytropic.Profiles.Phi M eps r = Fin x /\
       x <= 0 /\ (r <= 1e150 -> x < 0)) /\
  (forall r1 r2, 0 <= r1 -> r1 <= r2 ->
     exists x1 x2,
       Isothermal.Profiles.Phi M (Fin eps) r1 = Fin x1 /\
       Isothermal.Profiles.Phi M (Fin eps) r2 = Fin x2 /\
       Polytropic.Profiles.Phi M eps r1 = Fin x1 /\
       Polytropic.Profiles.Phi M eps r2 = Fin x2 /\
       x1 <= x2).
Proof.
  intros HM He. split.
  - intros r _. eexists. split; [reflexivity|].
    pose proof (potential_neg M eps r HM He) as Hneg. repeat split.
    + now apply Phi_iso_closed.
    + now apply Phi_poly_closed.
    + lra.
    + intros _. exact Hneg.
  - intros r1 r2 H1 H2.
    exists (- G * M / sqrt (r1 ^ 2 + eps ^ 2)), (- G * M / sqrt (r2 ^ 2 + eps ^ 2)).
    rewrite !Phi_iso_closed, !Phi_poly_closed by assumption.
    repeat split. destruct H2 as [H2|H2].
    + left. now apply potential_incr.
    + subst r2. lra.
Qed.

Lemma Phi_softened_nonpositive_nondecreasing_witness :
  exists x, x = - G * Polytropic.M_bh / sqrt (0 ^ 2 + Polytropic.epsilon ^ 2) /\
    Isothermal.Profiles.Phi Polytropic.M_bh (Fin Polytropic.epsilon) 0 = Fin x /\
    Polytropic.Phi 0 = Fin x /\ x <= 0 /\ (0 <= 1e150 -> x < 0).
Proof.
  apply (proj1 (Phi_softened_nonpositive_nondecreasing
                  Polytropic.M_bh Polytropic.epsilon
                  poly_M_bh_pos poly_epsilon_pos) 0).
  lra.
Defined.

(** ** The isothermal script as shipped *)

Lemma cs2_pos : 0 < cs2.
Proof. unfold cs2, kB, Isothermal.T_amb, mu, mp. lra. Qed.

Lemma iso_cs_amb_value : Isothermal.cs_amb = Fin (sqrt cs2).
Proof.
  unfold Isothermal.cs_amb. fold cs2. apply fsqrt_Fin. pose proof cs2_pos. lra.
Qed.

Lemma iso_cs_amb_sq : fpowi Isothermal.cs_amb 2 = Fin cs2.
Proof.
  rewrite iso_cs_amb_value. cbn [fpowi]. f_equal.
  apply pow2_sqrt. pose proof cs2_pos. lra.
Qed.

Lemma iso_M_bh_pos : 0 < Isothermal.M_bh.
Proof. unfold Isothermal.M_bh, Msun. lra. Qed.

Lemma iso_v_bh_pos : 0 < Isothermal.v_bh.
Proof. unfold Isothermal.v_bh. lra. Qed.

Lemma Rb_pos : 0 < Rb.
Proof.
  unfold Rb. pose proof cs2_pos. pose proof iso_v_bh_pos.
  pose proof iso_M_bh_pos. pose proof G_pos.
  apply Rdiv_lt_0_compat; nra.
Qed.

Lemma iso_R_bondi_value : Isothermal.R_bondi = Fin Rb.
Proof.
  unfold Isothermal.R_bondi. rewrite iso_cs_amb_sq. cbn [fadd].
  rewrite fdiv_Fin; [reflexivity|].
  pose proof cs2_pos. pose proof iso_v_bh_pos. nra.
Qed.

Lemma iso_epsilon_value : Isothermal.epsilon = Fin Rb.
Proof. exact iso_R_bondi_value. Qed.

Lemma iso_rho0_pos : 0 < Isothermal.rho0.
Proof. unfold Isothermal.rho0, mp. lra. Qed.

Lemma iso_density_closed (M eps r : R) :
  0 < eps ->
  Isothermal.Profiles.density_profile M Isothermal.rho0 Isothermal.cs_amb (Fin eps) r
  = Fin (Isothermal.rho0 *
         exp ((- G * M / sqrt (0 ^ 2 + eps ^ 2) - - G * M / sqrt (r ^ 2 + eps ^ 2))
              / cs2)).
Proof.
  intros He. unfold Isothermal.Profiles.density_profile.
  rewrite !Phi_iso_closed by assumption. rewrite iso_cs_amb_sq.
  cbn [fneg fadd]. rewrite fdiv_Fin by (apply Rgt_not_eq, cs2_pos).
  cbn [fexp fmul]. do 3 f_equal. lra.
Qed.

(** C2.  Isothermal closure, for [M > 0] and [eps > 0]: at every radius
    [r >= 0] the density is [rho0 * exp((Phi(0) - Phi(r)) / c_s^2)]; at
    [r = 0] it is [rho0] exactly; and it does not increase with [r]. *)
Theorem isothermal_density_profile (M eps : R) :
  0 < M -> 0 < eps ->
  (forall r, 0 <= r ->
     exists p0 pr,
       Isothermal.Profiles.Phi M (Fin eps) 0 = Fin p0 /\
       Isothermal.Profiles.Phi M (Fin eps) r = Fin pr /\
       Isothermal.Profiles.density_profile
         M Isothermal.rho0 Isothermal.cs_amb (Fin eps) r
       = Fin (Isothermal.rho0 * exp ((p0 - pr) / cs2))) /\
  Isothermal.Profiles.density_profile
    M Isothermal.rho0 Isothermal.cs_amb (Fin eps) 0 = Fin Isothermal.rho0 /\
  (forall r1 r2, 0 <= r1 -> r1 <= r2 ->
     exists d1 d2,
       Isothermal.Profiles.density_profile
         M Isothermal.rho0 Isothermal.cs_amb (Fin eps) r1 = Fin d1 /\
       Isothermal.Profiles.density_profile
         M Isothermal.rho0 Isothermal.cs_amb (Fin eps) r2 = Fin d2 /\
       d2 <= d1).
Proof.
  intros HM He. split; [|split].
  - intros r _. do 2 eexists. split; [now apply Phi_iso_closed|].
    split; [now apply Phi_iso_closed|]. now apply iso_density_closed.
  - rewrite iso_density_closed by assumption. f_equal.
    replace (_ / cs2) with 0.
    + rewrite exp_0. lra.
    + unfold Rdiv at 3. rewrite Rminus_diag. lra.
  - intros r1 r2 H1 H12. do 2 eexists.
    split; [now apply iso_density_closed|]. split; [now apply iso_density_closed|].
    pose proof iso_rho0_pos as Hrho. pose proof cs2_pos as Hc.
    apply Rmult_le_compat_l; [lra|].
    destruct H12 as [Hlt|<-]; [|lra].
    left. apply exp_increasing.
    pose proof (potential_incr M eps r1 r2 HM He H1 Hlt) as Hinc.
    unfold Rdiv at 1 4. apply Rmult_lt_compat_r; [now apply Rinv_0_lt_compat|lra].
Qed.

Lemma isothermal_density_profile_witness :
  Isothermal.density_profile 0 = Fin Isothermal.rho0.
Proof.
  unfold Isothermal.density_profile. rewrite iso_epsilon_value.
  exact (proj1 (proj2 (isothermal_density_profile Isothermal.M_bh Rb
                         iso_M_bh_pos Rb_pos))).
Defined.

Lemma iso_density_pos (r : R) :
  exists d, 0 < d /\ Isothermal.density_profile r = Fin d.
Proof.
  unfold Isothermal.density_profile. rewrite iso_epsilon_value.
  rewrite iso_density_closed by apply Rb_pos. eexists. split; [|reflexivity].
  apply Rmult_lt_0_compat; [apply iso_rho0_pos|apply exp_pos].
Qed.

Lemma iso_pressure_closed (r d : R) :
  Isothermal.density_profile r = Fin d ->
  Isothermal.pressure_profile r = Fin (d * cs2).
Proof.
  unfold Isothermal.pressure_profile, Isothermal.Profiles.pressure_profile.
  fold (Isothermal.density_profile r). intros ->.
  now rewrite iso_cs_amb_sq.
Qed.

(** C3.  Isothermal closure as shipped: at every radius the ratio
    [pressure_profile(r) / density_profile(r)] is [kB*T_amb/(mu*m_p)], and
    [temperature_profile(r)] is [T_amb]: the temperature does not vary
    with radius.  (Exact over the reals; float rounding is not modelled.) *)
Theorem isothermal_temperature_invariant (r : R) :
  (Isothermal.pressure_profile r / Isothermal.density_profile r)%fv
  = Fin (kB * Isothermal.T_amb / (mu * mp)) /\
  Isothermal.temperature_profile r = Fin Isothermal.T_amb.
Proof.
  destruct (iso_density_pos r) as (d & Hd & Ed).
  pose proof (iso_pressure_closed r d Ed) as Ep.
  split.
  - rewrite Ep, Ed. rewrite fdiv_Fin by lra. f_equal. fold cs2. field. lra.
  - unfold Isothermal.temperature_profile, Isothermal.Profiles.temperature_profile.
    fold (Isothermal.density_profile r). fold (Isothermal.pressure_profile r).
    rewrite Ep, Ed. cbn [fmul].
    assert (HkB : 0 < kB) by (unfold kB; lra).
    rewrite fdiv_Fin by nra. f_equal.
    unfold cs2, Isothermal.T_amb, mu, mp, kB in *. field. lra.
Qed.

(** ** The Bondi radius *)

Lemma poly_v_bh_pos : 0 < Polytropic.v_bh.
Proof. unfold Polytropic.v_bh. lra. Qed.

Lemma poly_R_bondi_pos : 0 < Polytropic.R_bondi.
Proof.
  unfold Polytropic.R_bondi. pose proof poly_M_bh_pos. pose proof poly_v_bh_pos.
  pose proof G_pos. apply Rdiv_lt_0_compat; nra.
Qed.

(** C7, as stated, fails in [polytropic_sol.py]: its Bondi radius is not
    [2*G*M/(c_s^2 + v^2)] with the ambient sound speed of the scenario. *)
Lemma polytropic_R_bondi_not_closed_form :
  Polytropic.R_bondi
  <> 2 * G * Polytropic.M_bh
     / (sqrt (kB * 1e7 / (mu * mp)) ^ 2 + Polytropic.v_bh ^ 2).
Proof.
  unfold Polytropic.R_bondi. intros E.
  assert (Hc : 0 < kB * 1e7 / (mu * mp)) by (unfold kB, mu, mp; lra).
  rewrite pow2_sqrt in E by lra.
  pose proof poly_M_bh_pos as HM. pose proof poly_v_bh_pos as Hv.
  pose proof G_pos as HG.
  assert (Hv2 : 0 < Polytropic.v_bh ^ 2) by nra.
  assert (HGM : 0 < 2 * G * Polytropic.M_bh) by nra.
  assert (Hinv : / (kB * 1e7 / (mu * mp) + Polytropic.v_bh ^ 2)
                 < / Polytropic.v_bh ^ 2).
  { apply Rinv_lt_contravar; [|lra]. apply Rmult_lt_0_compat; lra. }
  unfold Rdiv at 1 2 in E. nra.
Qed.

(** C7, amended.  In [isothermal_sol.py] the ambient sound speed is
    [c_s = sqrt(kB*T_amb/(mu*m_p))] and the Bondi radius is
    [2*G*M/(c_s^2 + v^2)], both finite and positive.  [polytropic_sol.py]
    has no ambient sound speed and computes [2*G*M/v^2], also positive. *)
Theorem R_bondi_per_script :
  (exists cs Rbondi,
     Isothermal.cs_amb = Fin cs /\
     cs = sqrt (kB * Isothermal.T_amb / (mu * mp)) /\ 0 < cs /\
     Isothermal.R_bondi = Fin Rbondi /\
     Rbondi = 2 * G * Isothermal.M_bh / (cs ^ 2 + Isothermal.v_bh ^ 2) /\
     0 < Rbondi) /\
  Polytropic.R_bondi = 2 * G * Polytropic.M_bh / Polytropic.v_bh ^ 2 /\
  0 < Polytropic.R_bondi.
Proof.
  split; [|split; [reflexivity|apply poly_R_bondi_pos]].
  exists (sqrt cs2), Rb. pose proof cs2_pos as Hc.
  split; [apply iso_cs_amb_value|]. split; [reflexivity|].
  split; [now apply sqrt_lt_R0|]. split; [apply iso_R_bondi_value|].
  split; [|apply Rb_pos]. unfold Rb. rewrite pow2_sqrt by lra. reflexivity.
Qed.

(** ** The polytropic closure *)

Lemma gamma_value : gamma = 5 / 3.
Proof. unfold gamma. lra. Qed.

Lemma gm1_value : gm1 = 2 / 3.
Proof. unfold gm1, gamma. lra. Qed.

Lemma inv_gm1_value : 1 / gm1 = 3 / 2.
Proof. rewrite gm1_value. lra. Qed.

Lemma three_halves_not_int (z : Z) : IZR z <> 3 / 2.
Proof.
  intros E. destruct (Z_le_gt_dec z 1) as [H|H].
  - apply IZR_le in H. lra.
  - assert (H2 : (2 <= z)%Z) by lia. apply IZR_le in H2. lra.
Qed.

Lemma is_int_inv_gm1 : is_int (1 / gm1) = false.
Proof.
  unfold is_int. destruct (Req_dec_T _ _) as [E|_]; [|reflexivity].
  rewrite inv_gm1_value in E at 2. now apply three_halves_not_int in E.
Qed.

(** The fractional power of [rho]: [t ** (1/gm1)]. *)
Lemma fpow_inv_gm1_neg (t : R) : t < 0 -> fpow (Fin t) (1 / gm1) = NaN.
Proof.
  intros Ht. unfold fpow.
  destruct (Req_dec_T (1 / gm1) 0) as [E|_]; [rewrite inv_gm1_value in E; lra|].
  destruct (Rlt_dec 0 t) as [H|_]; [lra|].
  destruct (Req_dec_T t 0) as [H|_]; [lra|].
  now rewrite is_int_inv_gm1.
Qed.

Lemma fpow_inv_gm1_nonneg (t : R) :
  0 <= t -> exists p, 0 <= p /\ fpow (Fin t) (1 / gm1) = Fin p.
Proof.
  intros Ht. destruct Ht as [Ht|<-].
  - exists (Rpower t (1 / gm1)). split; [left; apply exp_pos|now apply fpow_pos].
  - exists 0. split; [lra|]. unfold fpow.
    destruct (Req_dec_T (1 / gm1) 0) as [E|_]; [rewrite inv_gm1_value in E; lra|].
    destruct (Rlt_dec 0 0) as [H|_]; [lra|].
    destruct (Req_dec_T 0 0) as [_|H]; [|contradiction].
    destruct (Rlt_dec 0 (1 / gm1)) as [_|H]; [reflexivity|].
    rewrite inv_gm1_value in H. lra.
Qed.

Lemma term1_closed (M eps K r : R) :
  0 < eps -> K <> 0 ->
  Polytropic.Profiles.term1 M eps K r
  = Fin (term_coeff K * (G * M / sqrt (r ^ 2 + eps ^ 2))).
Proof.
  intros He HK. unfold Polytropic.Profiles.term1.
  rewrite Phi_poly_closed by assumption. cbn [fmul]. f_equal.
  unfold term_coeff. pose proof (soft_radius_pos r eps He).
  rewrite gamma_value. field. split; lra.
Qed.

Lemma term2_closed (M eps r_vir K : R) :
  0 < eps -> K <> 0 ->
  Polytropic.Profiles.term2 M eps r_vir K
  = Fin (term_coeff K * (G * M / sqrt (r_vir ^ 2 + eps ^ 2))).
Proof. intros He HK. now apply (term1_closed M eps K r_vir). Qed.

Lemma term_value_pos (M eps K r : R) :
  0 < M -> 0 < eps -> 0 < K ->
  0 < term_coeff K * (G * M / sqrt (r ^ 2 + eps ^ 2)).
Proof.
  intros HM He HK. pose proof G_pos. pose proof (soft_radius_pos r eps He).
  apply Rmult_lt_0_compat.
  - unfold term_coeff. rewrite gm1_value, gamma_value.
    apply Rdiv_lt_0_compat; lra.
  - apply Rdiv_lt_0_compat; nra.
Qed.

Lemma term_value_neg (M eps K r : R) :
  0 < M -> 0 < eps -> K < 0 ->
  term_coeff K * (G * M / sqrt (r ^ 2 + eps ^ 2)) < 0.
Proof.
  intros HM He HK. pose proof G_pos. pose proof (soft_radius_pos r eps He).
  assert (Hc : term_coeff K < 0).
  { unfold term_coeff. rewrite gm1_value, gamma_value.
    unfold Rdiv. apply Rmult_pos_neg; [lra|]. apply Rinv_lt_0_compat. lra. }
  assert (0 < G * M / sqrt (r ^ 2 + eps ^ 2)) by (apply Rdiv_lt_0_compat; nra).
  nra.
Qed.

(** Shipped parameters. *)

Lemma poly_r_vir_pos : 0 < Polytropic.r_vir.
Proof. unfold Polytropic.r_vir, pc. lra. Qed.

Lemma poly_T_vir_pos : 0 < Polytropic.T_vir.
Proof.
  unfold Polytropic.T_vir. pose proof poly_M_bh_pos. pose proof poly_r_vir_pos.
  pose proof G_pos. assert (0 < mp) by (unfold mp; lra).
  assert (0 < kB) by (unfold kB; lra).
  apply Rdiv_lt_0_compat; [|nra]. apply Rmult_lt_0_compat; nra.
Qed.

Lemma poly_rho_vir_pos : 0 < Polytropic.rho_vir.
Proof.
  unfold Polytropic.rho_vir. pose proof poly_T_vir_pos.
  apply Rdiv_lt_0_compat; [|assumption].
  unfold Polytropic.rho_cgm, Polytropic.T_cgm, mp. lra.
Qed.

Lemma poly_K_pos : 0 < Polytropic.K.
Proof.
  unfold Polytropic.K. apply Rmult_lt_0_compat; [|apply exp_pos].
  pose proof poly_T_vir_pos. apply Rdiv_lt_0_compat.
  - assert (0 < kB) by (unfold kB; lra). nra.
  - unfold mu, mp. lra.
Qed.

(** What [rho] returns and what it prints. *)

Lemma rho_values (M eps r_vir rho_vir K : R) (rs : list R) :
  snd (Polytropic.Profiles.rho M eps r_vir rho_vir K rs)
  = map (rho_at M eps r_vir rho_vir K) rs.
Proof.
  unfold Polytropic.Profiles.rho, rho_at.
  destruct (existsb _ _ || _); cbn; now rewrite map_map.
Qed.

Lemma rho_log (M eps r_vir rho_vir K : R) (rs : list R) :
  fst (Polytropic.Profiles.rho M eps r_vir rho_vir K rs)
  = Polytropic.Term1Pow
      (map (fun r => fpow (Polytropic.Profiles.term1 M eps K r) (1 / gm1) / Fin mp)%fv rs)
    :: (if term_negative M eps r_vir K rs
        then [Polytropic.Term1 (map (Polytropic.Profiles.term1 M eps K) rs);
              Polytropic.Term2 (Polytropic.Profiles.term2 M eps r_vir K)]
        else [])
    ++ [Polytropic.Term2Pow
          (fpow (Polytropic.Profiles.term2 M eps r_vir K) (1 / gm1) / Fin mp)%fv].
Proof.
  unfold Polytropic.Profiles.rho, term_negative.
  destruct (existsb _ _ || _); cbn; now rewrite map_map.
Qed.

Lemma term_negative_false (M eps r_vir K : R) (rs : list R) :
  0 < M -> 0 < eps -> 0 < K -> term_negative M eps r_vir K rs = false.
Proof.
  intros HM He HK. unfold term_negative. apply orb_false_intro.
  - induction rs as [|r rs IH]; [reflexivity|]. cbn [map existsb].
    rewrite IH, orb_false_r. rewrite term1_closed by lra.
    apply flt_Fin_false. left. now apply term_value_pos.
  - rewrite term2_closed by lra. apply flt_Fin_false. left.
    now apply term_value_pos.
Qed.

(** C9.  With the shipped polytropic parameters both bracketed terms are
    finite and non-negative at every radius (so at every [r >= 0]), their fractional
    powers are finite, and [rho] prints its two unconditional lines only:
    the branch that prints [term1] and [term2] is not taken. *)
Theorem shipped_terms_nonnegative (rs : list R) :
  (forall r,
     exists t p, Polytropic.term1 r = Fin t /\ 0 <= t /\
                 fpow (Polytropic.term1 r) (1 / gm1) = Fin p) /\
  (exists t p, Polytropic.term2 = Fin t /\ 0 <= t /\
               fpow Polytropic.term2 (1 / gm1) = Fin p) /\
  fst (Polytropic.rho rs)
  = [Polytropic.Term1Pow
       (map (fun r => fpow (Polytropic.term1 r) (1 / gm1) / Fin mp)%fv rs);
     Polytropic.Term2Pow (fpow Polytropic.term2 (1 / gm1) / Fin mp)%fv].
Proof.
  pose proof poly_M_bh_pos as HM. pose proof poly_epsilon_pos as He.
  pose proof poly_K_pos as HK.
  assert (Hterm : forall r,
             exists t p, Polytropic.Profiles.term1
                           Polytropic.M_bh Polytropic.epsilon Polytropic.K r = Fin t /\
                         0 <= t /\
                         fpow (Polytropic.Profiles.term1
                                 Polytropic.M_bh Polytropic.epsilon Polytropic.K r)
                              (1 / gm1) = Fin p).
  { intros r. rewrite term1_closed by lra.
    pose proof (term_value_pos _ _ _ r HM He HK) as Ht.
    destruct (fpow_inv_gm1_nonneg _ (Rlt_le _ _ Ht)) as (p & _ & Ep).
    eexists _, p. split; [reflexivity|]. split; [lra|exact Ep]. }
  split; [|split].
  - exact Hterm.
  - apply (Hterm Polytropic.r_vir).
  - unfold Polytropic.rho. rewrite rho_log.
    now rewrite term_negative_false.
Qed.

(** The reference term stays below [rho_vir ** gm1]: the subtracted power
    in [rho] is smaller than [rho_vir]. *)
Lemma poly_virial_speed :
  kB * Polytropic.T_vir / (mu * mp) = G * Polytropic.M_bh / Polytropic.r_vir.
Proof.
  unfold Polytropic.T_vir. pose proof poly_r_vir_pos.
  assert (0 < kB) by (unfold kB; lra). assert (0 < mp) by (unfold mp; lra).
  replace mu with 1 by (unfold mu; lra). field. repeat split; lra.
Qed.

Lemma poly_term2_value :
  exists t, Polytropic.term2 = Fin t /\ 0 < t /\
            Rpower t (1 / gm1) < Polytropic.rho_vir.
Proof.
  pose proof poly_M_bh_pos as HM. pose proof poly_epsilon_pos as He.
  pose proof poly_K_pos as HK. pose proof poly_r_vir_pos as Hr.
  pose proof poly_rho_vir_pos as Hrho. pose proof G_pos as HG.
  unfold Polytropic.term2. rewrite term2_closed by lra.
  eexists. split; [reflexivity|].
  pose proof (term_value_pos _ _ _ Polytropic.r_vir HM He HK) as Ht.
  split; [exact Ht|].
  set (t := term_coeff _ * _) in *.
  set (s := sqrt (Polytropic.r_vir ^ 2 + Polytropic.epsilon ^ 2)).
  set (q := Rpower Polytropic.rho_vir (1 - gamma)).
  assert (Hq : 0 < q) by apply exp_pos.
  assert (Hs : Polytropic.r_vir < s).
  { unfold s. rewrite <- (sqrt_pow2 Polytropic.r_vir) at 1 by lra.
    apply sqrt_lt_1_alt. nra. }
  assert (Et : t = 2 / 5 * (Polytropic.r_vir / s) * / q).
  { unfold t, term_coeff, Polytropic.K. fold q s. rewrite poly_virial_speed.
    rewrite gm1_value, gamma_value. field. repeat split; lra. }
  assert (Hlt : t < Rpower Polytropic.rho_vir gm1).
  { replace gm1 with (- (1 - gamma)) by (unfold gm1; lra).
    rewrite Rpower_Ropp. fold q. rewrite Et.
    assert (Hrs : Polytropic.r_vir / s < 1).
    { apply Rmult_lt_reg_r with s; [lra|]. unfold Rdiv.
      rewrite Rmult_assoc, Rinv_l by lra. lra. }
    assert (0 < Polytropic.r_vir / s) by (apply Rdiv_lt_0_compat; lra).
    assert (Hiq : 0 < / q) by now apply Rinv_0_lt_compat.
    nra. }
  apply Rlt_le_trans with (Rpower (Rpower Polytropic.rho_vir gm1) (1 / gm1)).
  - apply Rlt_Rpower_l; [rewrite inv_gm1_value; lra|]. split; assumption.
  - rewrite Rpower_mult. replace (gm1 * (1 / gm1)) with 1.
    + rewrite Rpower_1 by assumption. lra.
    + rewrite gm1_value. lra.
Qed.

Lemma poly_rho_at_pos (r : R) :
  exists d, 0 < d /\
    rho_at Polytropic.M_bh Polytropic.epsilon Polytropic.r_vir
           Polytropic.rho_vir Polytropic.K r = Fin d.
Proof.
  pose proof poly_M_bh_pos as HM. pose proof poly_epsilon_pos as He.
  pose proof poly_K_pos as HK.
  destruct poly_term2_value as (t2 & E2 & Ht2 & Hlt).
  unfold Polytropic.term2 in E2. unfold rho_at. rewrite E2.
  rewrite term1_closed by lra.
  pose proof (term_value_pos _ _ _ r HM He HK) as Ht1.
  rewrite !fpow_pos by assumption. cbn [fadd fsub fneg].
  eexists. split; [|reflexivity].
  pose proof (exp_pos (1 / gm1 * ln (term_coeff Polytropic.K *
    (G * Polytropic.M_bh / sqrt (r ^ 2 + Polytropic.epsilon ^ 2))))) as Hp.
  unfold Rpower in *. lra.
Qed.

(** C4.  Polytropic closure as shipped: [rho] evaluates
    [rho_vir + [-(gamma-1)/(K*gamma)*Phi(r)]^(1/(gamma-1))
             - [-(gamma-1)/(K*gamma)*Phi(r_vir)]^(1/(gamma-1))]
    at every sample, and at the reference radius [r_vir] it returns
    [rho_vir] exactly.  (Exact over the reals; float rounding is not
    modelled.) *)
Theorem rho_boundary_condition :
  (forall rs,
     snd (Polytropic.rho rs)
     = map (fun r =>
              Fin Polytropic.rho_vir
              + fpow (Fin (- (gamma - 1) / (Polytropic.K * gamma)) * Polytropic.Phi r)
                     (1 / (gamma - 1))
              - fpow (Fin (- (gamma - 1) / (Polytropic.K * gamma))
                      * Polytropic.Phi Polytropic.r_vir)
                     (1 / (gamma - 1)))%fv rs) /\
  snd (Polytropic.rho [Polytropic.r_vir]) = [Fin Polytropic.rho_vir].
Proof.
  assert (Ec : -1 * (gm1 / (Polytropic.K * gamma))
               = - (gamma - 1) / (Polytropic.K * gamma)).
  { unfold gm1. pose proof poly_K_pos. rewrite gamma_value. field. lra. }
  split.
  - intros rs. unfold Polytropic.rho. rewrite rho_values.
    apply map_ext. intros r. unfold rho_at, Polytropic.Profiles.term1,
      Polytropic.Profiles.term2, Polytropic.Phi.
    rewrite Ec. reflexivity.
  - unfold Polytropic.rho. rewrite rho_values. cbn [map]. f_equal.
    destruct poly_term2_value as (t & Et & Ht & _).
    unfold Polytropic.term2 in Et. unfold rho_at.
    change (Polytropic.Profiles.term1 Polytropic.M_bh Polytropic.epsilon
              Polytropic.K Polytropic.r_vir)
      with (Polytropic.Profiles.term2 Polytropic.M_bh Polytropic.epsilon
              Polytropic.r_vir Polytropic.K).
    rewrite Et, fpow_pos by assumption. cbn [fadd fsub fneg]. f_equal. lra.
Qed.

(** The powers and the quotient in [pressure] and [entropy]. *)

Lemma entropy_at_pos (K d : R) :
  0 < d -> ((Fin K * fpow (Fin d) gamma) / fpow (Fin d) gamma)%fv = Fin K.
Proof.
  intros Hd. rewrite fpow_pos by assumption. cbn [fmul].
  pose proof (exp_pos (gamma * ln d)) as Hp. fold (Rpower d gamma) in Hp.
  rewrite fdiv_Fin by lra. f_equal. field. lra.
Qed.

Lemma pressure_values (M eps r_vir rho_vir K : R) (rs : list R) :
  snd (Polytropic.Profiles.pressure M eps r_vir rho_vir K rs)
  = map (fun r => Fin K * fpow (rho_at M eps r_vir rho_vir K r) gamma)%fv rs.
Proof.
  unfold Polytropic.Profiles.pressure, Polytropic.bind.
  pose proof (rho_values M eps r_vir rho_vir K rs) as E.
  destruct (Polytropic.Profiles.rho M eps r_vir rho_vir K rs) as [l d].
  cbn in *. subst d. now rewrite map_map.
Qed.

Lemma entropy_values (M eps r_vir rho_vir K : R) (rs : list R) :
  snd (Polytropic.Profiles.entropy M eps r_vir rho_vir K rs)
  = map (fun r => (Fin K * fpow (rho_at M eps r_vir rho_vir K r) gamma)
                  / fpow (rho_at M eps r_vir rho_vir K r) gamma)%fv rs.
Proof.
  unfold Polytropic.Profiles.entropy, Polytropic.bind.
  pose proof (pressure_values M eps r_vir rho_vir K rs) as Ep.
  pose proof (rho_values M eps r_vir rho_vir K rs) as Ed.
  destruct (Polytropic.Profiles.pressure M eps r_vir rho_vir K rs) as [lp p].
  destruct (Polytropic.Profiles.rho M eps r_vir rho_vir K rs) as [ld d].
  cbn in *. subst p d. clear.
  induction rs as [|r rs IH]; [reflexivity|]. cbn. now rewrite IH.
Qed.

(** C5.  Polytropic closure as shipped: [K] is computed from the reference
    state as [(kB*T_vir/(mu*m_p)) * rho_vir^(1-gamma)], and at every radius
    [entropy(r) = pressure(r)/rho(r)^gamma] is [K].  (Exact over the reals;
    float rounding is not modelled.) *)
Theorem entropy_is_polytropic_constant (rs : list R) :
  Polytropic.K
  = (kB * Polytropic.T_vir / (mu * mp)) * Rpower Polytropic.rho_vir (1 - gamma) /\
  fpow (Fin Polytropic.rho_vir) (1 - gamma)
  = Fin (Rpower Polytropic.rho_vir (1 - gamma)) /\
  snd (Polytropic.entropy rs) = map (fun _ => Fin Polytropic.K) rs.
Proof.
  split; [reflexivity|]. split; [apply fpow_pos, poly_rho_vir_pos|].
  unfold Polytropic.entropy. rewrite entropy_values. apply map_ext.
  intros r. destruct (poly_rho_at_pos r) as (d & Hd & ->).
  now apply entropy_at_pos.
Qed.

(** ** Free-fall time *)

Lemma free_fall_closed (M eps r : R) :
  0 < M -> 0 < eps ->
  Polytropic.Profiles.free_fall_time M eps r
  = Fin (sqrt (Rpower (r ^ 2 + eps ^ 2) 1.5 / (2 * G * M))).
Proof.
  intros HM He. pose proof G_pos. unfold Polytropic.Profiles.free_fall_time.
  rewrite fpow_pos by nra. rewrite fdiv_Fin by nra.
  apply fsqrt_Fin. left. apply Rdiv_lt_0_compat; [apply exp_pos|nra].
Qed.

Section FreeFallBinary64.
Import PrimFloat.
Local Open Scope float_scope.

(** C10, as stated, fails in float64: with the shipped parameters
    [r**2 + epsilon**2] is the same float at [r = 0] and [r = 1], so
    whatever [np.pow] returns for it, [free_fall_time] is the same at both
    radii and is not strictly increasing. *)
Lemma free_fall_time_float64_ties :
  0 * 0 + F64.Polytropic.epsilon * F64.Polytropic.epsilon
  = 1 * 1 + F64.Polytropic.epsilon * F64.Polytropic.epsilon /\
  forall pow,
    F64.Polytropic.free_fall_time pow 0 = F64.Polytropic.free_fall_time pow 1.
Proof.
  assert (E : 0 * 0 + F64.Polytropic.epsilon * F64.Polytropic.epsilon
              = 1 * 1 + F64.Polytropic.epsilon * F64.Polytropic.epsilon)
    by (vm_compute; reflexivity).
  split; [exact E|]. intros pow.
  unfold F64.Polytropic.free_fall_time, F64.free_fall_time. now rewrite E.
Qed.
End FreeFallBinary64.

(** C10, amended.  With [eps > 0] and [M > 0], at every radius [r >= 0]
    (so at [r = 0] too) for which [(r^2+eps^2)^1.5] is within the float
    range ([r^2 + eps^2 <= 1e200]), [free_fall_time] returns the finite,
    positive value [sqrt((r^2+eps^2)^1.5 / (2*G*M))] (up to rounding), and
    it does not decrease when [r] grows. *)
Theorem free_fall_time_positive_nondecreasing (M eps : R) :
  0 < M -> 0 < eps ->
  (forall r, 0 <= r -> r ^ 2 + eps ^ 2 <= 1e200 ->
     exists t, t = sqrt (Rpower (r ^ 2 + eps ^ 2) 1.5 / (2 * G * M)) /\
               Polytropic.Profiles.free_fall_time M eps r = Fin t /\ 0 < t) /\
  (forall r1 r2, 0 <= r1 -> r1 <= r2 -> r2 ^ 2 + eps ^ 2 <= 1e200 ->
     exists t1 t2,
       Polytropic.Profiles.free_fall_time M eps r1 = Fin t1 /\
       Polytropic.Profiles.free_fall_time M eps r2 = Fin t2 /\ t1 <= t2).
Proof.
  intros HM He. pose proof G_pos as HG. split.
  - intros r _ _. eexists. split; [reflexivity|].
    split; [now apply free_fall_closed|].
    apply sqrt_lt_R0. apply Rdiv_lt_0_compat; [apply exp_pos|nra].
  - intros r1 r2 H1 H12 _. do 2 eexists.
    split; [now apply free_fall_closed|]. split; [now apply free_fall_closed|].
    destruct H12 as [H12|H12]; [|subst r2; lra].
    left. apply sqrt_lt_1_alt. split.
    + left. apply Rdiv_lt_0_compat; [apply exp_pos|nra].
    + unfold Rdiv. apply Rmult_lt_compat_r; [apply Rinv_0_lt_compat; nra|].
      apply Rlt_Rpower_l; [lra|]. nra.
Qed.

Lemma free_fall_time_positive_nondecreasing_witness :
  exists t, t = sqrt (Rpower (0 ^ 2 + Polytropic.epsilon ^ 2) 1.5
                      / (2 * G * Polytropic.M_bh)) /\
            Polytropic.free_fall_time 0 = Fin t /\ 0 < t.
Proof.
  apply (proj1 (free_fall_time_positive_nondecreasing
                  Polytropic.M_bh Polytropic.epsilon
                  poly_M_bh_pos poly_epsilon_pos) 0).
  - lra.
  - unfold Polytropic.epsilon, pc. lra.
Defined.

(** ** A negative bracketed term *)

Lemma fadd_NaN_l (b : fval) : (NaN + b)%fv = NaN.
Proof. now destruct b. Qed.

Lemma fadd_NaN_r (a : fval) : (a + NaN)%fv = NaN.
Proof. now destruct a. Qed.

Lemma rho_at_term1_neg (M eps r_vir rho_vir K r t : R) :
  Polytropic.Profiles.term1 M eps K r = Fin t -> t < 0 ->
  rho_at M eps r_vir rho_vir K r = NaN.
Proof.
  intros E Ht. unfold rho_at. rewrite E, fpow_inv_gm1_neg by assumption.
  unfold fsub. now rewrite fadd_NaN_r, fadd_NaN_l.
Qed.

Lemma rho_at_term2_neg (M eps r_vir rho_vir K r t : R) :
  Polytropic.Profiles.term2 M eps r_vir K = Fin t -> t < 0 ->
  rho_at M eps r_vir rho_vir K r = NaN.
Proof.
  intros E Ht. unfold rho_at. rewrite E, fpow_inv_gm1_neg by assumption.
  unfold fsub. cbn [fneg]. apply fadd_NaN_r.
Qed.

Lemma rho_log_diagnostic (M eps r_vir rho_vir K : R) (rs : list R) :
  term_negative M eps r_vir K rs = true ->
  fst (Polytropic.Profiles.rho M eps r_vir rho_vir K rs)
  = [Polytropic.Term1Pow
       (map (fun r => fpow (Polytropic.Profiles.term1 M eps K r) (1 / gm1) / Fin mp)%fv rs);
     Polytropic.Term1 (map (Polytropic.Profiles.term1 M eps K) rs);
     Polytropic.Term2 (Polytropic.Profiles.term2 M eps r_vir K);
     Polytropic.Term2Pow
       (fpow (Polytropic.Profiles.term2 M eps r_vir K) (1 / gm1) / Fin mp)%fv].
Proof. intros E. rewrite rho_log, E. reflexivity. Qed.

(** C6, as stated, fails: with [K = -1] (the other parameters as shipped)
    the bracketed term at [r = 0] is negative and [rho] returns [nan] for
    that sample. *)
Lemma negative_term_returns_nan :
  exists t,
    Polytropic.Profiles.term1 Polytropic.M_bh Polytropic.epsilon (-1) 0 = Fin t /\
    t < 0 /\
    snd (Polytropic.Profiles.rho Polytropic.M_bh Polytropic.epsilon
           Polytropic.r_vir Polytropic.rho_vir (-1) [0]) = [NaN].
Proof.
  pose proof poly_M_bh_pos as HM. pose proof poly_epsilon_pos as He.
  eexists. split; [apply term1_closed; lra|].
  assert (Ht : term_coeff (-1) * (G * Polytropic.M_bh
                 / sqrt (0 ^ 2 + Polytropic.epsilon ^ 2)) < 0)
    by (apply term_value_neg; lra).
  split; [exact Ht|].
  rewrite rho_values. cbn [map]. f_equal.
  apply rho_at_term1_neg with (2 := Ht). apply term1_closed; lra.
Qed.

(** C6, amended.  When a bracketed term is negative, [rho] prints the
    [term1] array and [term2] between its two unconditional lines, returns
    a value for every sample, and that value is [nan]: for the sample
    whose [term1] is negative, and for every sample when [term2] is
    negative.  Nothing else marks the sample. *)
Theorem negative_term_diagnosed (M eps r_vir rho_vir K : R) (rs : list R) :
  (forall i r t,
     nth_error rs i = Some r ->
     Polytropic.Profiles.term1 M eps K r = Fin t -> t < 0 ->
     In (Polytropic.Term1 (map (Polytropic.Profiles.term1 M eps K) rs))
        (fst (Polytropic.Profiles.rho M eps r_vir rho_vir K rs)) /\
     In (Polytropic.Term2 (Polytropic.Profiles.term2 M eps r_vir K))
        (fst (Polytropic.Profiles.rho M eps r_vir rho_vir K rs)) /\
     length (snd (Polytropic.Profiles.rho M eps r_vir rho_vir K rs)) = length rs /\
     nth_error (snd (Polytropic.Profiles.rho M eps r_vir rho_vir K rs)) i
     = Some NaN) /\
  (forall t,
     Polytropic.Profiles.term2 M eps r_vir K = Fin t -> t < 0 ->
     In (Polytropic.Term1 (map (Polytropic.Profiles.term1 M eps K) rs))
        (fst (Polytropic.Profiles.rho M eps r_vir rho_vir K rs)) /\
     In (Polytropic.Term2 (Polytropic.Profiles.term2 M eps r_vir K))
        (fst (Polytropic.Profiles.rho M eps r_vir rho_vir K rs)) /\
     snd (Polytropic.Profiles.rho M eps r_vir rho_vir K rs)
     = map (fun _ => NaN) rs).
Proof.
  split.
  - intros i r t Hi E Ht.
    assert (Hneg : term_negative M eps r_vir K rs = true).
    { unfold term_negative. apply orb_true_intro. left.
      apply existsb_exists. exists (Fin t). split; [|now apply flt_Fin_true].
      rewrite <- E. apply in_map. eapply nth_error_In, Hi. }
    rewrite rho_log_diagnostic by assumption. rewrite rho_values.
    split; [cbn; tauto|]. split; [cbn; tauto|].
    split; [apply length_map|].
    rewrite nth_error_map, Hi. cbn [option_map]. f_equal.
    now apply rho_at_term1_neg with (t := t).
  - intros t E Ht.
    assert (Hneg : term_negative M eps r_vir K rs = true).
    { unfold term_negative. apply orb_true_intro. right.
      rewrite E. now apply flt_Fin_true. }
    rewrite rho_log_diagnostic by assumption. rewrite rho_values.
    split; [cbn; tauto|]. split; [cbn; tauto|].
    apply map_ext. intros r. now apply rho_at_term2_neg with (t := t).
Qed.

Lemma negative_term_diagnosed_witness :
  nth_error (snd (Polytropic.Profiles.rho Polytropic.M_bh Polytropic.epsilon
                    Polytropic.r_vir Polytropic.rho_vir (-1) [0; 1])) 1
  = Some NaN.
Proof.
  pose proof poly_M_bh_pos as HM. pose proof poly_epsilon_pos as He.
  refine (proj2 (proj2 (proj2
    (proj1 (negative_term_diagnosed Polytropic.M_bh Polytropic.epsilon
              Polytropic.r_vir Polytropic.rho_vir (-1) [0; 1])
       1%nat 1 _ eq_refl (term1_closed _ _ _ 1 He _) _)))).
  - lra.
  - apply term_value_neg; lra.
Defined.

(** ** The cooling-table interpolant *)

Lemma combine_fst_snd {A B} (l : list (A * B)) :
  combine (map fst l) (map snd l) = l.
Proof. induction l as [|[a b] l IH]; [reflexivity|]. cbn. now rewrite IH. Qed.

Lemma insert_point_perm (p : R * R) (l : list (R * R)) :
  Permutation (Polytropic.insert_point p l) (p :: l).
Proof.
  induction l as [|q l IH]; [reflexivity|]. cbn.
  destruct (Rle_dec (fst p) (fst q)); [reflexivity|].
  rewrite IH. apply perm_swap.
Qed.

Lemma sort_points_perm (l : list (R * R)) :
  Permutation (Polytropic.sort_points l) l.
Proof.
  induction l as [|p l IH]; [reflexivity|]. cbn.
  rewrite insert_point_perm. now constructor.
Qed.

Lemma insert_point_sorted (p : R * R) (l : list (R * R)) :
  StronglySorted Rlt (map fst l) -> ~ In (fst p) (map fst l) ->
  StronglySorted Rlt (map fst (Polytropic.insert_point p l)).
Proof.
  induction l as [|q l IH]; intros Hs Hn.
  - cbn. repeat constructor.
  - cbn in Hs, Hn. apply StronglySorted_inv in Hs as [Hs Hq].
    cbn [Polytropic.insert_point].
    destruct (Rle_dec (fst p) (fst q)) as [Hle|Hgt].
    + assert (Hlt : fst p < fst q) by (destruct Hle as [H|H]; [exact H|exfalso; apply Hn; left; now symmetry]).
      cbn [map]. constructor; [constructor; assumption|].
      constructor; [assumption|].
      eapply Forall_impl; [|exact Hq]. intros a Ha. cbn in Ha. lra.
    + cbn [map]. constructor; [apply IH; tauto|].
      assert (Hp : Permutation (map fst (Polytropic.insert_point p l))
                               (fst p :: map fst l)).
      { change (fst p :: map fst l) with (map fst (p :: l)).
        apply Permutation_map, insert_point_perm. }
      eapply Permutation_Forall; [symmetry; exact Hp|].
      constructor; [lra|assumption].
Qed.

Lemma sort_points_sorted (l : list (R * R)) :
  NoDup (map fst l) -> StronglySorted Rlt (map fst (Polytropic.sort_points l)).
Proof.
  induction l as [|p l IH]; intros Hn; [constructor|].
  cbn in Hn. apply NoDup_cons_iff in Hn as [Hp Hn]. cbn.
  apply insert_point_sorted; [now apply IH|].
  intros Hin. apply Hp.
  eapply Permutation_in; [|exact Hin]. apply Permutation_map, sort_points_perm.
Qed.

(** A table already in strictly ascending order is left as it is. *)
Lemma sort_points_id (l : list (R * R)) :
  StronglySorted Rlt (map fst l) -> Polytropic.sort_points l = l.
Proof.
  induction l as [|p l IH]; intros Hs; [reflexivity|].
  cbn in Hs. apply StronglySorted_inv in Hs as [Hs Hp].
  cbn. rewrite IH by assumption. destruct l as [|q l]; [reflexivity|].
  cbn. apply Forall_inv in Hp. destruct (Rle_dec (fst p) (fst q)); [reflexivity|lra].
Qed.





Lemma searchsorted_all_below (xs : list R) (v : R) :
  Forall (fun a => a < v) xs -> Polytropic.searchsorted xs v = length xs.
Proof.
  induction 1 as [|a xs Ha _ IH]; [reflexivity|]. cbn.
  destruct (Rlt_dec a v); [now rewrite IH|contradiction].
Qed.







Section LookupBinary64.
Import PrimFloat.
Local Open Scope float_scope.
#[local] Set Warnings "-inexact-float".

End LookupBinary64.



(** Evaluation on small tables.  [decide_reals] settles the comparisons
    that the model makes on concrete numbers: the order tests first, then
    the zero test of the division. *)
Ltac decide_reals :=
  repeat (cbn;
          match goal with
          | |- context [Rle_dec ?a ?b] => destruct (Rle_dec a b); try lra
          | |- context [Rlt_dec ?a ?b] => destruct (Rlt_dec a b); try lra
          end);
  cbn;
  repeat match goal with
         | |- context [Req_dec_T ?a ?b] => destruct (Req_dec_T a b); try lra
         end.

Example cool_lambda_between :
  Polytropic.cool_lambda [(1, 10); (3, 30); (4, 20)] 2 = Fin 20.
Proof.
  unfold Polytropic.cool_lambda, Polytropic.Lambda_interp, Polytropic.call_linear.
  decide_reals. cbn. f_equal. lra.
Qed.

Example cool_lambda_above :
  Polytropic.cool_lambda [(1, 10); (3, 30); (4, 20)] 6 = Fin 0.
Proof.
  unfold Polytropic.cool_lambda, Polytropic.Lambda_interp, Polytropic.call_linear.
  decide_reals. cbn. f_equal. lra.
Qed.

Example cool_lambda_below :
  Polytropic.cool_lambda [(3, 30); (1, 10); (4, 20)] 0 = Fin 0.
Proof.
  unfold Polytropic.cool_lambda, Polytropic.Lambda_interp, Polytropic.call_linear.
  decide_reals. cbn. f_equal. lra.
Qed.

(** The temperatures have to be distinct: on a repeated temperature the
    slope divides by zero and the lookup at that point is [nan]. *)
Example cool_lambda_repeated_temperature :
  Polytropic.cool_lambda [(1, 5); (1, 7)] 1 = NaN.
Proof.
  unfold Polytropic.cool_lambda, Polytropic.Lambda_interp, Polytropic.call_linear.
  decide_reals. unfold inf_of_sign. decide_reals. unfold inf_of_sign.
  decide_reals. reflexivity.
Qed.

(** Without softening the potential is singular at the origin, and the
    free-fall time there is zero. *)
Example Phi_unsoftened_origin : Polytropic.Profiles.Phi 1 0 0 = NInf.
Proof.
  unfold Polytropic.Profiles.Phi. replace (0 ^ 2 + 0 ^ 2) with 0 by lra.
  rewrite fsqrt_Fin, sqrt_0 by lra. pose proof G_pos.
  unfold fdiv, inf_of_sign. decide_reals. reflexivity.
Qed.

Example free_fall_unsoftened_origin :
  Polytropic.Profiles.free_fall_time 1 0 0 = Fin 0.
Proof.
  unfold Polytropic.Profiles.free_fall_time. replace (0 ^ 2 + 0 ^ 2) with 0 by lra.
  pose proof G_pos. unfold fpow.
  destruct (Req_dec_T 1.5 0); [lra|]. destruct (Rlt_dec 0 0); [lra|].
  destruct (Req_dec_T 0 0); [|contradiction]. destruct (Rlt_dec 0 1.5); [|lra].
  rewrite fdiv_Fin by lra. replace (0 / (2 * G * 1)) with 0 by (unfold Rdiv; lra).
  rewrite fsqrt_Fin, sqrt_0 by lra. reflexivity.
Qed.

(** * Further properties of the profile functions *)

(** ** The potential well *)

Lemma soft_radius_origin (eps : R) : 0 < eps -> sqrt (0 ^ 2 + eps ^ 2) = eps.
Proof.
  intros He. replace (0 ^ 2 + eps ^ 2) with (eps ^ 2) by lra.
  apply sqrt_pow2. lra.
Qed.

Lemma soft_radius_ge (r eps : R) : 0 < eps -> eps <= sqrt (r ^ 2 + eps ^ 2).
Proof.
  intros He. rewrite <- (sqrt_pow2 eps) at 1 by lra. apply sqrt_le_1_alt. nra.
Qed.

Lemma exp_le_1 (x : R) : x <= 0 -> exp x <= 1.
Proof.
  intros [H|H]; [|rewrite H, exp_0; lra].
  left. rewrite <- exp_0. now apply exp_increasing.
Qed.

Lemma potential_ge_origin (M eps r : R) :
  0 < M -> 0 < eps -> - G * M / eps <= - G * M / sqrt (r ^ 2 + eps ^ 2).
Proof.
  intros HM He. pose proof G_pos as HG.
  pose proof (soft_radius_ge r eps He) as Hs.
  assert (Hinv : / sqrt (r ^ 2 + eps ^ 2) <= / eps)
    by (apply Rinv_le_contravar; lra).
  unfold Rdiv. assert (0 < G * M) by nra. nra.
Qed.

(** X1.  The potential does not tell [r] from [-r] (a negative radius is
    not rejected), is deepest at the origin, where it is [-G*M/eps], and
    is never below that nor above zero; it is negative while [r^2] does
    not overflow ([r^2 <= 1e300]). *)
Theorem Phi_even_deepest_at_origin (M eps : R) :
  0 < M -> 0 < eps ->
  Polytropic.Profiles.Phi M eps 0 = Fin (- G * M / eps) /\
  Isothermal.Profiles.Phi M (Fin eps) 0 = Fin (- G * M / eps) /\
  forall r,
    Polytropic.Profiles.Phi M eps (- r) = Polytropic.Profiles.Phi M eps r /\
    Isothermal.Profiles.Phi M (Fin eps) (- r)
    = Isothermal.Profiles.Phi M (Fin eps) r /\
    exists x, Polytropic.Profiles.Phi M eps r = Fin x /\
              Isothermal.Profiles.Phi M (Fin eps) r = Fin x /\
              - G * M / eps <= x <= 0 /\ (r ^ 2 <= 1e300 -> x < 0).
Proof.
  intros HM He. split; [|split].
  - rewrite Phi_poly_closed, soft_radius_origin by assumption. reflexivity.
  - rewrite Phi_iso_closed, soft_radius_origin by assumption. reflexivity.
  - intros r. rewrite !Phi_poly_closed, !Phi_iso_closed by assumption.
    replace ((- r) ^ 2) with (r ^ 2) by lra.
    split; [reflexivity|]. split; [reflexivity|].
    eexists. split; [reflexivity|]. split; [reflexivity|].
    pose proof (potential_ge_origin M eps r HM He).
    pose proof (potential_neg M eps r HM He).
    split; [lra|]. intros _. assumption.
Qed.

Lemma Phi_even_deepest_at_origin_witness :
  Polytropic.Phi 0 = Fin (- G * Polytropic.M_bh / Polytropic.epsilon).
Proof.
  exact (proj1 (Phi_even_deepest_at_origin Polytropic.M_bh Polytropic.epsilon
                  poly_M_bh_pos poly_epsilon_pos)).
Defined.

(** ** Isothermal density: bounds *)

(** X2.  With [M > 0] and [eps > 0] the isothermal density is the same
    at [r] and [-r], and at every radius it lies between the positive
    floor [rho0 * exp(Phi(0)/c_s^2)], with [Phi(0) = -G*M/eps], and
    [rho0]: it never reaches zero. *)
Theorem isothermal_density_bounds (M eps : R) :
  0 < M -> 0 < eps ->
  forall r,
    Isothermal.Profiles.density_profile
      M Isothermal.rho0 Isothermal.cs_amb (Fin eps) (- r)
    = Isothermal.Profiles.density_profile
        M Isothermal.rho0 Isothermal.cs_amb (Fin eps) r /\
    exists p0 d,
      Isothermal.Profiles.Phi M (Fin eps) 0 = Fin p0 /\
      p0 = - G * M / eps /\
      Isothermal.Profiles.density_profile
        M Isothermal.rho0 Isothermal.cs_amb (Fin eps) r = Fin d /\
      0 < Isothermal.rho0 * exp (p0 / cs2) /\
      Isothermal.rho0 * exp (p0 / cs2) <= d <= Isothermal.rho0.
Proof.
  intros HM He r. pose proof iso_rho0_pos as Hrho. pose proof cs2_pos as Hc.
  pose proof G_pos as HG.
  rewrite !iso_density_closed by assumption.
  replace ((- r) ^ 2) with (r ^ 2) by lra. split; [reflexivity|].
  do 2 eexists. split; [now apply Phi_iso_closed|].
  rewrite soft_radius_origin by assumption.
  split; [reflexivity|]. split; [reflexivity|].
  pose proof (potential_ge_origin M eps r HM He) as Hge.
  pose proof (potential_neg M eps r HM He) as Hneg.
  assert (Hic : 0 < / cs2) by now apply Rinv_0_lt_compat.
  split; [apply Rmult_lt_0_compat; [assumption|apply exp_pos]|].
  split.
  - apply Rmult_le_compat_l; [lra|]. left. apply exp_increasing.
    unfold Rdiv at 1 3. apply Rmult_lt_compat_r; [assumption|]. lra.
  - rewrite <- (Rmult_1_r Isothermal.rho0) at 2.
    apply Rmult_le_compat_l; [lra|]. apply exp_le_1.
    unfold Rdiv at 3. nra.
Qed.

Lemma isothermal_density_bounds_witness :
  exists p0 d,
    Isothermal.Profiles.Phi Isothermal.M_bh (Fin Rb) 0 = Fin p0 /\
    p0 = - G * Isothermal.M_bh / Rb /\
    Isothermal.density_profile 1 = Fin d /\
    0 < Isothermal.rho0 * exp (p0 / cs2) /\
    Isothermal.rho0 * exp (p0 / cs2) <= d <= Isothermal.rho0.
Proof.
  unfold Isothermal.density_profile. rewrite iso_epsilon_value.
  exact (proj2 (isothermal_density_bounds Isothermal.M_bh Rb
                  iso_M_bh_pos Rb_pos 1)).
Defined.

(** ** Without softening *)

Lemma fdiv_zero_neg (x : R) : x < 0 -> (Fin x / Fin 0)%fv = NInf.
Proof.
  intros Hx. unfold fdiv. destruct (Req_dec_T 0 0) as [_|H]; [|contradiction].
  unfold inf_of_sign. destruct (Rlt_dec 0 x); [lra|].
  destruct (Rlt_dec x 0); [reflexivity|contradiction].
Qed.

Lemma fdiv_zero_zero : (Fin 0 / Fin 0)%fv = NaN.
Proof.
  unfold fdiv. destruct (Req_dec_T 0 0) as [_|H]; [|contradiction].
  unfold inf_of_sign. destruct (Rlt_dec 0 0); [lra|reflexivity].
Qed.

Lemma fdiv_NInf_pos (c : R) : 0 < c -> (NInf / Fin c)%fv = NInf.
Proof. intros Hc. unfold fdiv. destruct (Rlt_dec c 0); [lra|reflexivity]. Qed.

Lemma Phi_iso_unsoftened (M r : R) :
  r <> 0 -> Isothermal.Profiles.Phi M (Fin 0) r = Fin (- G * M / sqrt (r ^ 2)).
Proof.
  intros Hr. unfold Isothermal.Profiles.Phi. cbn [fpowi fadd].
  assert (H2 : 0 < r ^ 2) by (assert (r < 0 \/ 0 < r) by lra; nra).
  replace (r ^ 2 + 0 ^ 2) with (r ^ 2) by lra.
  rewrite fsqrt_Fin by lra.
  rewrite fdiv_Fin by (apply Rgt_not_eq, sqrt_lt_R0; assumption).
  f_equal. lra.
Qed.

Lemma Phi_iso_unsoftened_origin (M : R) :
  0 < M -> Isothermal.Profiles.Phi M (Fin 0) 0 = NInf.
Proof.
  intros HM. unfold Isothermal.Profiles.Phi. cbn [fpowi fadd].
  replace (0 ^ 2 + 0 ^ 2) with 0 by lra. rewrite fsqrt_Fin, sqrt_0 by lra.
  apply fdiv_zero_neg. pose proof G_pos. nra.
Qed.

Section UnsoftenedBinary64.
Import PrimFloat.
Local Open Scope float_scope.
#[local] Set Warnings "-inexact-float".

(** In float64 the square of a radius below about [1.5e-162] underflows
    to zero: without softening the potential there is [-inf], as at the
    origin. *)
Example Phi_float64_unsoftened_underflow :
  F64.Phi F64.Isothermal.M_bh 0 1e-170 = neg_infinity /\
  F64.Phi F64.Isothermal.M_bh 0 0 = neg_infinity.
Proof. split; vm_compute; reflexivity. Qed.
End UnsoftenedBinary64.

(** X3.  With [epsilon = 0] (and [M > 0]) nothing is rejected: the
    isothermal potential at the origin is [-inf], the density is [nan] at
    the origin, the temperature is [nan] at every radius, and at every
    radius whose square does not underflow ([r^2 >= 1e-300]) density and
    pressure are zero. *)
Theorem isothermal_without_softening (M : R) :
  0 < M ->
  Isothermal.Profiles.Phi M (Fin 0) 0 = NInf /\
  Isothermal.Profiles.density_profile
    M Isothermal.rho0 Isothermal.cs_amb (Fin 0) 0 = NaN /\
  (forall r,
     Isothermal.Profiles.temperature_profile
       M Isothermal.rho0 Isothermal.cs_amb (Fin 0) r = NaN) /\
  forall r, 1e-300 <= r ^ 2 ->
    Isothermal.Profiles.density_profile
      M Isothermal.rho0 Isothermal.cs_amb (Fin 0) r = Fin 0 /\
    Isothermal.Profiles.pressure_profile
      M Isothermal.rho0 Isothermal.cs_amb (Fin 0) r = Fin 0.
Proof.
  intros HM. pose proof cs2_pos as Hc.
  assert (Hd0 : Isothermal.Profiles.density_profile
                  M Isothermal.rho0 Isothermal.cs_amb (Fin 0) 0 = NaN).
  { unfold Isothermal.Profiles.density_profile.
    rewrite Phi_iso_unsoftened_origin by assumption. reflexivity. }
  assert (Hd : forall r, r <> 0 ->
             Isothermal.Profiles.density_profile
               M Isothermal.rho0 Isothermal.cs_amb (Fin 0) r = Fin 0).
  { intros r Hr. unfold Isothermal.Profiles.density_profile.
    rewrite Phi_iso_unsoftened_origin, Phi_iso_unsoftened by assumption.
    rewrite iso_cs_amb_sq. cbn [fneg fadd]. rewrite fdiv_NInf_pos by assumption.
    cbn [fexp fmul]. f_equal. lra. }
  split; [now apply Phi_iso_unsoftened_origin|]. split; [exact Hd0|].
  split.
  - intros r. unfold Isothermal.Profiles.temperature_profile,
      Isothermal.Profiles.pressure_profile.
    destruct (Req_dec_T r 0) as [->|Hr].
    + rewrite Hd0. reflexivity.
    + rewrite Hd by assumption. rewrite iso_cs_amb_sq. cbn [fmul].
      replace (0 * cs2 * mu * mp) with 0 by lra.
      replace (0 * kB) with 0 by lra. apply fdiv_zero_zero.
  - intros r Hr2.
    assert (Hr : r <> 0) by (intros ->; lra).
    split; [now apply Hd|].
    unfold Isothermal.Profiles.pressure_profile.
    rewrite Hd by assumption. rewrite iso_cs_amb_sq. cbn [fmul]. f_equal. lra.
Qed.

Lemma isothermal_without_softening_witness :
  Isothermal.Profiles.density_profile
    Isothermal.M_bh Isothermal.rho0 Isothermal.cs_amb (Fin 0) 1 = Fin 0.
Proof.
  refine (proj1 (proj2 (proj2 (proj2
    (isothermal_without_softening Isothermal.M_bh iso_M_bh_pos))) 1 _)).
  lra.
Defined.

(** ** Pressure, temperature and entropy of the polytropic closure *)

Lemma temperature_values (M eps r_vir rho_vir K : R) (rs : list R) :
  snd (Polytropic.Profiles.Temperature M eps r_vir rho_vir K rs)
  = map (fun r => temperature_at K (rho_at M eps r_vir rho_vir K r)) rs.
Proof.
  unfold Polytropic.Profiles.Temperature, Polytropic.bind.
  pose proof (rho_values M eps r_vir rho_vir K rs) as E.
  destruct (Polytropic.Profiles.rho M eps r_vir rho_vir K rs) as [l d].
  cbn in *. subst d. now rewrite map_map.
Qed.

Lemma pressure_log (M eps r_vir rho_vir K : R) (rs : list R) :
  fst (Polytropic.Profiles.pressure M eps r_vir rho_vir K rs)
  = fst (Polytropic.Profiles.rho M eps r_vir rho_vir K rs).
Proof.
  unfold Polytropic.Profiles.pressure, Polytropic.bind.
  destruct (Polytropic.Profiles.rho M eps r_vir rho_vir K rs) as [l d].
  cbn. apply app_nil_r.
Qed.

Lemma temperature_log (M eps r_vir rho_vir K : R) (rs : list R) :
  fst (Polytropic.Profiles.Temperature M eps r_vir rho_vir K rs)
  = fst (Polytropic.Profiles.rho M eps r_vir rho_vir K rs).
Proof.
  unfold Polytropic.Profiles.Temperature, Polytropic.bind.
  destruct (Polytropic.Profiles.rho M eps r_vir rho_vir K rs) as [l d].
  cbn. apply app_nil_r.
Qed.

Lemma entropy_log (M eps r_vir rho_vir K : R) (rs : list R) :
  fst (Polytropic.Profiles.entropy M eps r_vir rho_vir K rs)
  = fst (Polytropic.Profiles.rho M eps r_vir rho_vir K rs)
    ++ fst (Polytropic.Profiles.rho M eps r_vir rho_vir K rs).
Proof.
  unfold Polytropic.Profiles.entropy, Polytropic.bind.
  pose proof (pressure_log M eps r_vir rho_vir K rs) as Ep.
  destruct (Polytropic.Profiles.pressure M eps r_vir rho_vir K rs) as [lp p].
  destruct (Polytropic.Profiles.rho M eps r_vir rho_vir K rs) as [ld d].
  cbn in *. subst lp. now rewrite app_nil_r.
Qed.

Lemma combine3_map {A B C D : Type} (f : A -> B) (g : A -> C) (h : A -> D)
      (l : list A) :
  combine (combine (map f l) (map g l)) (map h l)
  = map (fun a => (f a, g a, h a)) l.
Proof. induction l as [|a l IH]; [reflexivity|]. cbn. now rewrite IH. Qed.

Lemma cooling_time_values (M eps r_vir rho_vir K : R) (data : list (R * R))
      (rs : list R) :
  snd (Polytropic.Diagnostics.cooling_time M eps r_vir rho_vir K data rs)
  = map (fun r => cooling_time_at K data (rho_at M eps r_vir rho_vir K r)) rs.
Proof.
  unfold Polytropic.Diagnostics.cooling_time, Polytropic.bind.
  pose proof (pressure_values M eps r_vir rho_vir K rs) as Ep.
  pose proof (temperature_values M eps r_vir rho_vir K rs) as Et.
  pose proof (rho_values M eps r_vir rho_vir K rs) as Ed.
  destruct (Polytropic.Profiles.rho M eps r_vir rho_vir K rs) as [ld d].
  destruct (Polytropic.Profiles.pressure M eps r_vir rho_vir K rs) as [lp p].
  destruct (Polytropic.Profiles.Temperature M eps r_vir rho_vir K rs) as [lt t].
  cbn in *. subst d p t. rewrite map_map.
  rewrite (combine3_map
             (fun r => (rho_at M eps r_vir rho_vir K r / Fin (mu * mp))%fv)
             (fun r => (Fin K * fpow (rho_at M eps r_vir rho_vir K r) gamma)%fv)
             (fun r => temperature_at K (rho_at M eps r_vir rho_vir K r))).
  rewrite map_map. reflexivity.
Qed.

Lemma cooling_time_log (M eps r_vir rho_vir K : R) (data : list (R * R))
      (rs : list R) :
  fst (Polytropic.Diagnostics.cooling_time M eps r_vir rho_vir K data rs)
  = fst (Polytropic.Profiles.rho M eps r_vir rho_vir K rs)
    ++ fst (Polytropic.Profiles.rho M eps r_vir rho_vir K rs)
    ++ fst (Polytropic.Profiles.rho M eps r_vir rho_vir K rs).
Proof.
  unfold Polytropic.Diagnostics.cooling_time, Polytropic.bind.
  pose proof (pressure_log M eps r_vir rho_vir K rs) as Ep.
  pose proof (temperature_log M eps r_vir rho_vir K rs) as Et.
  destruct (Polytropic.Profiles.rho M eps r_vir rho_vir K rs) as [ld d].
  destruct (Polytropic.Profiles.pressure M eps r_vir rho_vir K rs) as [lp p].
  destruct (Polytropic.Profiles.Temperature M eps r_vir rho_vir K rs) as [lt t].
  cbn in *. subst lp lt. now rewrite app_nil_r.
Qed.

(** X5.  Every profile function evaluates [rho] again, so it prints what [rho]
    prints: [pressure] and [Temperature] once, [entropy] twice and
    [cooling_time] three times; with a non-empty output of [rho] each
    time, nothing is printed once only. *)
Theorem profiles_print_rho_again (M eps r_vir rho_vir K : R)
        (data : list (R * R)) (rs : list R) :
  let out := fst (Polytropic.Profiles.rho M eps r_vir rho_vir K rs) in
  (2 <= length out)%nat /\
  fst (Polytropic.Profiles.pressure M eps r_vir rho_vir K rs) = out /\
  fst (Polytropic.Profiles.Temperature M eps r_vir rho_vir K rs) = out /\
  fst (Polytropic.Profiles.entropy M eps r_vir rho_vir K rs) = out ++ out /\
  fst (Polytropic.Diagnostics.cooling_time M eps r_vir rho_vir K data rs)
  = out ++ out ++ out.
Proof.
  cbn zeta. split.
  - rewrite rho_log. cbn [length]. rewrite length_app. cbn. lia.
  - split; [apply pressure_log|]. split; [apply temperature_log|].
    split; [apply entropy_log|apply cooling_time_log].
Qed.

Lemma nth_error_map_some {A B : Type} (f : A -> B) (l : list A) (i : nat) (y : B) :
  nth_error (map f l) i = Some y ->
  exists x, nth_error l i = Some x /\ f x = y.
Proof.
  rewrite nth_error_map. destruct (nth_error l i) as [x|]; cbn; [|discriminate].
  intros E. injection E as E. eauto.
Qed.

Lemma gamma_nonzero : gamma <> 0.
Proof. rewrite gamma_value. lra. Qed.

Lemma gm1_nonzero : gm1 <> 0.
Proof. rewrite gm1_value. lra. Qed.

Lemma fpow_NaN (y : R) : y <> 0 -> fpow NaN y = NaN.
Proof.
  intros Hy. unfold fpow. destruct (Req_dec_T y 0); [contradiction|reflexivity].
Qed.

Lemma fdiv_NaN_l (b : fval) : (NaN / b)%fv = NaN.
Proof. now destruct b. Qed.

Lemma fmul_NaN_r (a : fval) : (a * NaN)%fv = NaN.
Proof. now destruct a. Qed.

(** X6.  A [nan] density is a [nan] pressure, temperature, entropy and cooling
    time at the same sample. *)
Theorem nan_density_propagates (M eps r_vir rho_vir K : R)
        (data : list (R * R)) (rs : list R) (i : nat) :
  nth_error (snd (Polytropic.Profiles.rho M eps r_vir rho_vir K rs)) i = Some NaN ->
  nth_error (snd (Polytropic.Profiles.pressure M eps r_vir rho_vir K rs)) i
  = Some NaN /\
  nth_error (snd (Polytropic.Profiles.Temperature M eps r_vir rho_vir K rs)) i
  = Some NaN /\
  nth_error (snd (Polytropic.Profiles.entropy M eps r_vir rho_vir K rs)) i
  = Some NaN /\
  nth_error (snd (Polytropic.Diagnostics.cooling_time
                    M eps r_vir rho_vir K data rs)) i
  = Some NaN.
Proof.
  rewrite rho_values. intros H.
  destruct (nth_error_map_some _ _ _ _ H) as (r & Hr & Er).
  rewrite pressure_values, temperature_values, entropy_values, cooling_time_values.
  rewrite !nth_error_map, Hr. cbn [option_map].
  unfold temperature_at, cooling_time_at. rewrite Er.
  rewrite (fpow_NaN gamma gamma_nonzero), (fpow_NaN gm1 gm1_nonzero).
  rewrite !fmul_NaN_r, !fdiv_NaN_l. repeat split; reflexivity.
Qed.

Lemma nan_density_propagates_witness :
  nth_error (snd (Polytropic.Profiles.entropy Polytropic.M_bh Polytropic.epsilon
                    Polytropic.r_vir Polytropic.rho_vir (-1) [0])) 0
  = Some NaN.
Proof.
  refine (proj1 (proj2 (proj2
    (nan_density_propagates Polytropic.M_bh Polytropic.epsilon
       Polytropic.r_vir Polytropic.rho_vir (-1) [] [0] 0 _)))).
  rewrite rho_values. cbn [map nth_error]. f_equal.
  pose proof poly_M_bh_pos as HM. pose proof poly_epsilon_pos as He.
  apply rho_at_term1_neg
    with (t := term_coeff (-1) * (G * Polytropic.M_bh
                 / sqrt (0 ^ 2 + Polytropic.epsilon ^ 2))).
  - apply term1_closed; lra.
  - apply term_value_neg; lra.
Defined.

Lemma Rpower_succ_exponent (d y : R) : 0 < d -> Rpower d (1 + y) = d * Rpower d y.
Proof. intros Hd. now rewrite Rpower_plus, Rpower_1. Qed.

(** X7.  Where the density is finite and positive, pressure and temperature are
    finite and obey the ideal-gas law [P = n*kB*T] with the number density
    [n = rho/(mu*m_p)] that [cooling_time] uses. *)
Theorem polytropic_ideal_gas (M eps r_vir rho_vir K : R) (rs : list R)
        (i : nat) (d : R) :
  nth_error (snd (Polytropic.Profiles.rho M eps r_vir rho_vir K rs)) i
  = Some (Fin d) ->
  0 < d ->
  exists P T,
    nth_error (snd (Polytropic.Profiles.pressure M eps r_vir rho_vir K rs)) i
    = Some (Fin P) /\
    nth_error (snd (Polytropic.Profiles.Temperature M eps r_vir rho_vir K rs)) i
    = Some (Fin T) /\
    P = K * Rpower d gamma /\
    P = d / (mu * mp) * kB * T.
Proof.
  rewrite rho_values. intros H Hd.
  destruct (nth_error_map_some _ _ _ _ H) as (r & Hr & Er).
  rewrite pressure_values, temperature_values.
  rewrite !nth_error_map, Hr. cbn [option_map]. unfold temperature_at.
  rewrite Er, !fpow_pos by assumption. cbn [fmul].
  do 2 eexists. split; [reflexivity|]. split; [reflexivity|].
  split; [reflexivity|].
  replace gamma with (1 + gm1) by (unfold gm1; lra).
  rewrite Rpower_succ_exponent by assumption.
  assert (0 < kB) by (unfold kB; lra). assert (0 < mp) by (unfold mp; lra).
  replace mu with 1 by (unfold mu; lra). field. split; lra.
Qed.

Lemma rho_at_reference (M eps r_vir rho_vir K : R) :
  0 < M -> 0 < eps -> 0 < K ->
  rho_at M eps r_vir rho_vir K r_vir = Fin rho_vir.
Proof.
  intros HM He HK. unfold rho_at.
  change (Polytropic.Profiles.term1 M eps K r_vir)
    with (Polytropic.Profiles.term2 M eps r_vir K).
  rewrite term2_closed by lra.
  rewrite fpow_pos by now apply term_value_pos.
  cbn [fadd fsub fneg]. f_equal. lra.
Qed.

Lemma polytropic_constant_pos (T_vir rho_vir : R) :
  0 < T_vir -> 0 < polytropic_constant T_vir rho_vir.
Proof.
  intros HT. unfold polytropic_constant.
  apply Rmult_lt_0_compat; [|apply exp_pos].
  assert (0 < kB) by (unfold kB; lra). assert (0 < mu * mp) by (unfold mu, mp; lra).
  apply Rdiv_lt_0_compat; nra.
Qed.

Lemma polytropic_constant_reference (T_vir rho_vir : R) :
  0 < rho_vir ->
  polytropic_constant T_vir rho_vir * Rpower rho_vir gm1
  = kB * T_vir / (mu * mp).
Proof.
  intros Hr. unfold polytropic_constant.
  rewrite Rmult_assoc, <- Rpower_plus.
  replace (1 - gamma + gm1) with 0 by (unfold gm1; lra).
  rewrite Rpower_O by assumption. lra.
Qed.

(** X8.  The polytropic constant is the one of the reference state: with
    [K = (kB*T_vir/(mu*m_p)) * rho_vir^(1-gamma)] the profile passes through
    the reference state at [r_vir], where the density is [rho_vir], the
    temperature [T_vir] and the pressure [rho_vir*kB*T_vir/(mu*m_p)]. *)
Theorem polytropic_reference_state (M eps r_vir rho_vir T_vir : R) :
  0 < M -> 0 < eps -> 0 < rho_vir -> 0 < T_vir ->
  snd (Polytropic.Profiles.rho M eps r_vir rho_vir
         (polytropic_constant T_vir rho_vir) [r_vir]) = [Fin rho_vir] /\
  snd (Polytropic.Profiles.Temperature M eps r_vir rho_vir
         (polytropic_constant T_vir rho_vir) [r_vir]) = [Fin T_vir] /\
  snd (Polytropic.Profiles.pressure M eps r_vir rho_vir
         (polytropic_constant T_vir rho_vir) [r_vir])
  = [Fin (rho_vir * kB * T_vir / (mu * mp))].
Proof.
  intros HM He Hr HT.
  pose proof (polytropic_constant_pos T_vir rho_vir HT) as HK.
  pose proof (polytropic_constant_reference T_vir rho_vir Hr) as EK.
  assert (HkB : 0 < kB) by (unfold kB; lra).
  assert (Hmp : 0 < mp) by (unfold mp; lra).
  assert (Hmu : mu = 1) by (unfold mu; lra).
  rewrite rho_values, temperature_values, pressure_values. cbn [map].
  unfold temperature_at. rewrite rho_at_reference by assumption.
  rewrite !fpow_pos by assumption. cbn [fmul].
  split; [reflexivity|]. split; f_equal; f_equal.
  - transitivity (polytropic_constant T_vir rho_vir * Rpower rho_vir gm1
                  * (mu * mp / kB)); [field; lra|].
    rewrite EK, Hmu. field. split; lra.
  - replace gamma with (1 + gm1) by (unfold gm1; lra).
    rewrite Rpower_succ_exponent by assumption.
    transitivity (rho_vir * (polytropic_constant T_vir rho_vir
                             * Rpower rho_vir gm1)); [ring|].
    rewrite EK, Hmu. field. lra.
Qed.

Lemma polytropic_reference_state_witness :
  snd (Polytropic.Temperature [Polytropic.r_vir]) = [Fin Polytropic.T_vir].
Proof.
  exact (proj1 (proj2 (polytropic_reference_state
                         Polytropic.M_bh Polytropic.epsilon Polytropic.r_vir
                         Polytropic.rho_vir Polytropic.T_vir
                         poly_M_bh_pos poly_epsilon_pos
                         poly_rho_vir_pos poly_T_vir_pos))).
Defined.

Lemma polytropic_ideal_gas_witness :
  exists P T,
    nth_error (snd (Polytropic.pressure [Polytropic.r_vir])) 0 = Some (Fin P) /\
    nth_error (snd (Polytropic.Temperature [Polytropic.r_vir])) 0 = Some (Fin T) /\
    P = Polytropic.K * Rpower Polytropic.rho_vir gamma /\
    P = Polytropic.rho_vir / (mu * mp) * kB * T.
Proof.
  refine (polytropic_ideal_gas Polytropic.M_bh Polytropic.epsilon
            Polytropic.r_vir Polytropic.rho_vir Polytropic.K
            [Polytropic.r_vir] 0 Polytropic.rho_vir _ poly_rho_vir_pos).
  rewrite rho_values. cbn [map nth_error]. f_equal.
  apply rho_at_reference;
    [apply poly_M_bh_pos|apply poly_epsilon_pos|apply poly_K_pos].
Defined.

(** ** The polytropic density along the radius *)

Lemma rho_at_closed (M eps r_vir rho_vir K r : R) :
  0 < M -> 0 < eps -> 0 < K ->
  rho_at M eps r_vir rho_vir K r
  = Fin (rho_vir
         + Rpower (term_coeff K * (G * M / sqrt (r ^ 2 + eps ^ 2))) (1 / gm1)
         - Rpower (term_coeff K * (G * M / sqrt (r_vir ^ 2 + eps ^ 2))) (1 / gm1)).
Proof.
  intros HM He HK. unfold rho_at.
  rewrite term1_closed, term2_closed by lra.
  rewrite !fpow_pos by now apply term_value_pos.
  reflexivity.
Qed.

Lemma term_value_decr (M eps K r1 r2 : R) :
  0 < M -> 0 < eps -> 0 < K -> 0 <= r1 -> r1 < r2 ->
  term_coeff K * (G * M / sqrt (r2 ^ 2 + eps ^ 2))
  < term_coeff K * (G * M / sqrt (r1 ^ 2 + eps ^ 2)).
Proof.
  intros HM He HK H1 H12. pose proof G_pos as HG.
  assert (Hc : 0 < term_coeff K).
  { unfold term_coeff. rewrite gm1_value, gamma_value.
    apply Rdiv_lt_0_compat; lra. }
  apply Rmult_lt_compat_l; [assumption|].
  pose proof (potential_incr M eps r1 r2 HM He H1 H12) as Hinc.
  unfold Rdiv in *. lra.
Qed.

Lemma term_power_decr (M eps K r1 r2 : R) :
  0 < M -> 0 < eps -> 0 < K -> 0 <= r1 -> r1 < r2 ->
  Rpower (term_coeff K * (G * M / sqrt (r2 ^ 2 + eps ^ 2))) (1 / gm1)
  < Rpower (term_coeff K * (G * M / sqrt (r1 ^ 2 + eps ^ 2))) (1 / gm1).
Proof.
  intros HM He HK H1 H12. apply Rlt_Rpower_l.
  - rewrite inv_gm1_value. lra.
  - split; [now apply term_value_pos|now apply term_value_decr].
Qed.

(** X9.  For [M > 0], [eps > 0] and [K > 0] the polytropic density is
    finite at every radius and does not increase when [r >= 0] grows: it
    is not below [rho_vir] inside the reference radius and not above it
    outside. *)
Theorem polytropic_density_nonincreasing (M eps r_vir rho_vir K : R) :
  0 < M -> 0 < eps -> 0 < K ->
  (forall r1 r2, 0 <= r1 -> r1 <= r2 ->
     exists d1 d2,
       snd (Polytropic.Profiles.rho M eps r_vir rho_vir K [r1; r2])
       = [Fin d1; Fin d2] /\ d2 <= d1) /\
  (forall r, 0 <= r -> 0 <= r_vir ->
     exists d,
       snd (Polytropic.Profiles.rho M eps r_vir rho_vir K [r]) = [Fin d] /\
       (r <= r_vir -> rho_vir <= d) /\ (r_vir <= r -> d <= rho_vir)).
Proof.
  intros HM He HK.
  assert (Hmono : forall a b, 0 <= a -> a <= b ->
            Rpower (term_coeff K * (G * M / sqrt (b ^ 2 + eps ^ 2))) (1 / gm1)
            <= Rpower (term_coeff K * (G * M / sqrt (a ^ 2 + eps ^ 2))) (1 / gm1)).
  { intros a b Ha [Hab|Hab]; [|subst b; lra].
    left. now apply term_power_decr. }
  split.
  - intros r1 r2 H1 H12. rewrite rho_values. cbn [map].
    rewrite !rho_at_closed by assumption. do 2 eexists. split; [reflexivity|].
    pose proof (Hmono r1 r2 H1 H12). lra.
  - intros r Hr Hv. rewrite rho_values. cbn [map].
    rewrite rho_at_closed by assumption. eexists. split; [reflexivity|].
    split; intros Hle.
    + pose proof (Hmono r r_vir Hr Hle). lra.
    + pose proof (Hmono r_vir r Hv Hle). lra.
Qed.

Lemma polytropic_density_nonincreasing_witness :
  exists d1 d2,
    snd (Polytropic.rho [0; Polytropic.r_vir]) = [Fin d1; Fin d2] /\ d2 <= d1.
Proof.
  apply (proj1 (polytropic_density_nonincreasing
                  Polytropic.M_bh Polytropic.epsilon Polytropic.r_vir
                  Polytropic.rho_vir Polytropic.K
                  poly_M_bh_pos poly_epsilon_pos poly_K_pos)).
  - lra.
  - left. apply poly_r_vir_pos.
Defined.

Lemma Rpower_two_fifths : Rpower (2 / 5) (3 / 2) < 1 / 2.
Proof.
  set (y := Rpower (2 / 5) (3 / 2)).
  assert (Hy : 0 < y) by apply exp_pos.
  assert (Ey : y ^ 2 = (2 / 5) ^ 3).
  { rewrite <- (Rpower_pow 2 y Hy). unfold y. rewrite Rpower_mult.
    replace (3 / 2 * INR 2) with (INR 3) by (cbn; lra).
    apply Rpower_pow. lra. }
  nra.
Qed.

Lemma poly_term2_small :
  Rpower (term_coeff Polytropic.K
          * (G * Polytropic.M_bh
             / sqrt (Polytropic.r_vir ^ 2 + Polytropic.epsilon ^ 2)))
         (1 / gm1)
  < Polytropic.rho_vir / 2.
Proof.
  pose proof poly_M_bh_pos as HM. pose proof poly_epsilon_pos as He.
  pose proof poly_K_pos as HK. pose proof poly_r_vir_pos as Hr.
  pose proof poly_rho_vir_pos as Hrho. pose proof G_pos as HG.
  pose proof (term_value_pos _ _ _ Polytropic.r_vir HM He HK) as Ht.
  set (t := term_coeff _ * _) in *.
  set (s := sqrt (Polytropic.r_vir ^ 2 + Polytropic.epsilon ^ 2)).
  set (q := Rpower Polytropic.rho_vir (1 - gamma)).
  assert (Hq : 0 < q) by apply exp_pos.
  assert (Hs : Polytropic.r_vir < s).
  { unfold s. rewrite <- (sqrt_pow2 Polytropic.r_vir) at 1 by lra.
    apply sqrt_lt_1_alt. nra. }
  assert (Et : t = 2 / 5 * (Polytropic.r_vir / s) * / q).
  { unfold t, term_coeff, Polytropic.K. fold q s. rewrite poly_virial_speed.
    rewrite gm1_value, gamma_value. field. repeat split; lra. }
  assert (Eq : / q = Rpower Polytropic.rho_vir gm1).
  { replace gm1 with (- (1 - gamma)) by (unfold gm1; lra).
    now rewrite Rpower_Ropp. }
  assert (Hx : 0 < Rpower Polytropic.rho_vir gm1) by apply exp_pos.
  assert (Hlt : t < 2 / 5 * Rpower Polytropic.rho_vir gm1).
  { rewrite Et, Eq.
    assert (Hrs : Polytropic.r_vir / s < 1).
    { apply Rmult_lt_reg_r with s; [lra|]. unfold Rdiv.
      rewrite Rmult_assoc, Rinv_l by lra. lra. }
    nra. }
  apply Rlt_trans
    with (Rpower (2 / 5 * Rpower Polytropic.rho_vir gm1) (1 / gm1)).
  - apply Rlt_Rpower_l; [rewrite inv_gm1_value; lra|]. split; assumption.
  - rewrite <- Rpower_mult_distr by lra.
    rewrite Rpower_mult. replace (gm1 * (1 / gm1)) with 1
      by (rewrite gm1_value; lra).
    rewrite Rpower_1 by assumption. rewrite inv_gm1_value.
    pose proof Rpower_two_fifths. nra.
Qed.

(** X10.  With the shipped parameters the density is finite and above
    [rho_vir/2] at every radius, so pressure and temperature are finite and
    positive everywhere. *)
Theorem shipped_polytropic_profiles_positive (rs : list R) (i : nat) (r : R) :
  nth_error rs i = Some r ->
  exists d P T,
    nth_error (snd (Polytropic.rho rs)) i = Some (Fin d) /\
    Polytropic.rho_vir / 2 < d /\
    nth_error (snd (Polytropic.pressure rs)) i = Some (Fin P) /\ 0 < P /\
    nth_error (snd (Polytropic.Temperature rs)) i = Some (Fin T) /\ 0 < T.
Proof.
  intros Hi.
  pose proof poly_M_bh_pos as HM. pose proof poly_epsilon_pos as He.
  pose proof poly_K_pos as HK. pose proof poly_rho_vir_pos as Hrho.
  pose proof poly_term2_small as Hlt.
  unfold Polytropic.rho, Polytropic.pressure, Polytropic.Temperature.
  rewrite rho_values, pressure_values, temperature_values.
  rewrite !nth_error_map, Hi. cbn [option_map]. unfold temperature_at.
  rewrite rho_at_closed by assumption.
  set (p2 := Rpower _ (1 / gm1)) in Hlt. fold p2.
  set (p1 := Rpower _ (1 / gm1)).
  assert (Hp1 : 0 < p1) by apply exp_pos.
  assert (Hd : 0 < Polytropic.rho_vir + p1 - p2) by lra.
  rewrite !fpow_pos by assumption. cbn [fmul].
  do 3 eexists. split; [reflexivity|]. split; [lra|].
  split; [reflexivity|]. split; [apply Rmult_lt_0_compat; [lra|apply exp_pos]|].
  split; [reflexivity|].
  apply Rmult_lt_0_compat; [|apply exp_pos].
  assert (0 < kB) by (unfold kB; lra). assert (0 < mu * mp) by (unfold mu, mp; lra).
  apply Rdiv_lt_0_compat; nra.
Qed.

Lemma shipped_polytropic_profiles_positive_witness :
  exists d P T,
    nth_error (snd (Polytropic.rho [0; 1])) 1 = Some (Fin d) /\
    Polytropic.rho_vir / 2 < d /\
    nth_error (snd (Polytropic.pressure [0; 1])) 1 = Some (Fin P) /\ 0 < P /\
    nth_error (snd (Polytropic.Temperature [0; 1])) 1 = Some (Fin T) /\ 0 < T.
Proof.
  exact (shipped_polytropic_profiles_positive [0; 1] 1 1 eq_refl).
Defined.

Lemma Phi_poly_unsoftened (M r : R) :
  r <> 0 -> Polytropic.Profiles.Phi M 0 r = Fin (- G * M / sqrt (r ^ 2 + 0 ^ 2)).
Proof.
  intros Hr. unfold Polytropic.Profiles.Phi.
  assert (H2 : 0 < r ^ 2 + 0 ^ 2) by (assert (r < 0 \/ 0 < r) by lra; nra).
  rewrite fsqrt_Fin by lra.
  rewrite fdiv_Fin by (apply Rgt_not_eq, sqrt_lt_R0; assumption).
  f_equal. lra.
Qed.

Lemma Phi_poly_unsoftened_origin (M : R) :
  0 < M -> Polytropic.Profiles.Phi M 0 0 = NInf.
Proof.
  intros HM. unfold Polytropic.Profiles.Phi.
  replace (0 ^ 2 + 0 ^ 2) with 0 by lra. rewrite fsqrt_Fin, sqrt_0 by lra.
  apply fdiv_zero_neg. pose proof G_pos. nra.
Qed.

Lemma fmul_pos_PInf (x : R) : 0 < x -> (Fin x * PInf)%fv = PInf.
Proof.
  intros Hx. cbn. unfold inf_of_sign. destruct (Rlt_dec 0 x); [reflexivity|contradiction].
Qed.

Lemma fmul_neg_NInf (x : R) : x < 0 -> (Fin x * NInf)%fv = PInf.
Proof.
  intros Hx. cbn. unfold inf_of_sign. destruct (Rlt_dec 0 (- x)); [reflexivity|lra].
Qed.

Lemma fpow_PInf (y : R) : 0 < y -> fpow PInf y = PInf.
Proof.
  intros Hy. unfold fpow. destruct (Req_dec_T y 0); [lra|].
  destruct (Rlt_dec 0 y); [reflexivity|contradiction].
Qed.

(** X4.  With [epsilon = 0] (and [M > 0], [K > 0], [r_vir <> 0]) nothing is
    rejected: at the origin the polytropic potential is [-inf], density,
    pressure and temperature are [+inf] and the entropy is [nan]. *)
Theorem polytropic_without_softening (M r_vir rho_vir K : R) :
  0 < M -> 0 < K -> r_vir <> 0 ->
  Polytropic.Profiles.Phi M 0 0 = NInf /\
  snd (Polytropic.Profiles.rho M 0 r_vir rho_vir K [0]) = [PInf] /\
  snd (Polytropic.Profiles.pressure M 0 r_vir rho_vir K [0]) = [PInf] /\
  snd (Polytropic.Profiles.Temperature M 0 r_vir rho_vir K [0]) = [PInf] /\
  snd (Polytropic.Profiles.entropy M 0 r_vir rho_vir K [0]) = [NaN].
Proof.
  intros HM HK Hr. pose proof G_pos as HG.
  assert (Hc : -1 * (gm1 / (K * gamma)) < 0).
  { rewrite gm1_value, gamma_value.
    assert (0 < 2 / 3 / (K * (5 / 3))) by (apply Rdiv_lt_0_compat; lra). lra. }
  assert (Ed : rho_at M 0 r_vir rho_vir K 0 = PInf).
  { unfold rho_at, Polytropic.Profiles.term1, Polytropic.Profiles.term2.
    rewrite Phi_poly_unsoftened_origin, Phi_poly_unsoftened by assumption.
    rewrite fmul_neg_NInf by assumption.
    rewrite fpow_PInf by (rewrite inv_gm1_value; lra).
    cbn [fmul fadd]. rewrite fpow_pos; [reflexivity|].
    assert (Hs : 0 < sqrt (r_vir ^ 2 + 0 ^ 2)).
    { apply sqrt_lt_R0. assert (r_vir < 0 \/ 0 < r_vir) by lra. nra. }
    assert (0 < G * M / sqrt (r_vir ^ 2 + 0 ^ 2)) by (apply Rdiv_lt_0_compat; nra).
    replace (- G * M / sqrt (r_vir ^ 2 + 0 ^ 2))
      with (- (G * M / sqrt (r_vir ^ 2 + 0 ^ 2))) by (field; lra).
    nra. }
  split; [now apply Phi_poly_unsoftened_origin|].
  rewrite rho_values, pressure_values, temperature_values, entropy_values.
  cbn [map]. unfold temperature_at. rewrite Ed.
  rewrite !fpow_PInf by (rewrite ?gamma_value, ?gm1_value; lra).
  rewrite fmul_pos_PInf by assumption.
  rewrite fmul_pos_PInf.
  - repeat split; reflexivity.
  - assert (0 < kB) by (unfold kB; lra). assert (0 < mu * mp) by (unfold mu, mp; lra).
    apply Rdiv_lt_0_compat; nra.
Qed.

Lemma polytropic_without_softening_witness :
  snd (Polytropic.Profiles.entropy Polytropic.M_bh 0 Polytropic.r_vir
         Polytropic.rho_vir Polytropic.K [0]) = [NaN].
Proof.
  refine (proj2 (proj2 (proj2 (proj2
    (polytropic_without_softening Polytropic.M_bh Polytropic.r_vir
       Polytropic.rho_vir Polytropic.K poly_M_bh_pos poly_K_pos _))))).
  pose proof poly_r_vir_pos. lra.
Defined.

(** ** More on the cooling-table interpolant *)

Lemma sorted_points_unique (l1 l2 : list (R * R)) :
  Permutation l1 l2 ->
  StronglySorted Rlt (map fst l1) -> StronglySorted Rlt (map fst l2) ->
  l1 = l2.
Proof.
  revert l2. induction l1 as [|a l1 IH]; intros l2 Hp H1 H2.
  - apply Permutation_nil in Hp. now subst.
  - destruct l2 as [|b l2]; [apply Permutation_sym, Permutation_nil in Hp; discriminate|].
    cbn in H1, H2. apply StronglySorted_inv in H1 as [H1 Ha].
    apply StronglySorted_inv in H2 as [H2 Hb].
    rewrite Forall_forall in Ha, Hb.
    assert (E : a = b).
    { assert (Hin : In a (b :: l2)) by (eapply Permutation_in; [exact Hp|now left]).
      assert (Hin' : In b (a :: l1))
        by (eapply Permutation_in; [symmetry; exact Hp|now left]).
      destruct Hin as [E|Hin]; [now symmetry|].
      destruct Hin' as [E|Hin']; [assumption|].
      pose proof (Hb _ (in_map fst _ _ Hin)).
      pose proof (Ha _ (in_map fst _ _ Hin')). lra. }
    subst b. f_equal. apply IH; [|assumption|assumption].
    now apply Permutation_cons_inv in Hp.
Qed.

Lemma NoDup_map_fst_perm (l1 l2 : list (R * R)) :
  Permutation l1 l2 -> NoDup (map fst l1) -> NoDup (map fst l2).
Proof.
  intros Hp. apply Permutation_NoDup. now apply Permutation_map.
Qed.

(** X12.  The order of the rows of the table does not matter: two tables with
    the same rows (temperatures pairwise distinct) give the same lookup at
    every temperature, finite or not. *)
Theorem cool_lambda_row_order (data data' : list (R * R)) :
  Permutation data data' -> NoDup (Polytropic.T_tab data) ->
  (forall T, Polytropic.cool_lambda data T = Polytropic.cool_lambda data' T) /\
  (forall v, Polytropic.cool_lambda_val data v
             = Polytropic.cool_lambda_val data' v).
Proof.
  intros Hp Hd.
  assert (E : Polytropic.sort_points data = Polytropic.sort_points data').
  { apply sorted_points_unique.
    - rewrite sort_points_perm, Hp. symmetry. apply sort_points_perm.
    - now apply sort_points_sorted.
    - apply sort_points_sorted. now apply (NoDup_map_fst_perm data). }
  unfold Polytropic.cool_lambda, Polytropic.Lambda_interp,
    Polytropic.cool_lambda_val, Polytropic.T_tab, Polytropic.Lambda_tab.
  rewrite !combine_fst_snd, E. split; reflexivity.
Qed.

Lemma cool_lambda_row_order_witness :
  Polytropic.cool_lambda [(2, 3); (1, 1); (4, 2)] 3
  = Polytropic.cool_lambda [(1, 1); (2, 3); (4, 2)] 3.
Proof.
  refine (proj1 (cool_lambda_row_order [(2, 3); (1, 1); (4, 2)]
                   [(1, 1); (2, 3); (4, 2)] _ _) 3).
  - apply perm_swap.
  - cbn. repeat constructor; cbn; intros H;
      repeat (destruct H as [H|H]; [lra|]); exact H.
Defined.

(** ** Cooling time *)

Lemma cool_lambda_val_Fin (data : list (R * R)) (T : R) :
  Polytropic.cool_lambda_val data (Fin T) = Polytropic.cool_lambda data T.
Proof. reflexivity. Qed.

Lemma inf_of_sign_pos (x : R) : 0 < x -> inf_of_sign x = PInf.
Proof.
  intros Hx. unfold inf_of_sign. destruct (Rlt_dec 0 x); [reflexivity|contradiction].
Qed.

(** X11.  Where the density [d] is finite and positive (and [K > 0]), with the
    temperature [T = (K*mu*m_p/kB) * d^(gamma-1)], the number density
    [n = d/(mu*m_p)] and the looked-up cooling rate [L]: the cooling time
    is [gamma/(gamma-1) * kB*T / (n*L)] and has the sign of [L] when
    [L <> 0], and is [+inf] when [L = 0]. *)
Theorem cooling_time_value (M eps r_vir rho_vir K : R) (data : list (R * R))
        (rs : list R) (i : nat) (d L : R) :
  0 < K ->
  nth_error (snd (Polytropic.Profiles.rho M eps r_vir rho_vir K rs)) i
  = Some (Fin d) ->
  0 < d ->
  Polytropic.cool_lambda data (K * mu * mp / kB * Rpower d gm1) = Fin L ->
  (L <> 0 ->
   exists t,
     nth_error (snd (Polytropic.Diagnostics.cooling_time
                       M eps r_vir rho_vir K data rs)) i = Some (Fin t) /\
     t = gamma / (gamma - 1) * kB * (K * mu * mp / kB * Rpower d gm1)
         / (d / (mu * mp) * L) /\
     (0 < L -> 0 < t) /\ (L < 0 -> t < 0)) /\
  (L = 0 ->
   nth_error (snd (Polytropic.Diagnostics.cooling_time
                     M eps r_vir rho_vir K data rs)) i = Some PInf).
Proof.
  intros HK H Hd HL. rewrite rho_values in H.
  destruct (nth_error_map_some _ _ _ _ H) as (r & Hr & Er).
  rewrite cooling_time_values, nth_error_map, Hr. cbn [option_map].
  unfold cooling_time_at, temperature_at. rewrite Er.
  rewrite !fpow_pos by assumption. cbn [fmul].
  rewrite cool_lambda_val_Fin, HL.
  assert (HkB : 0 < kB) by (unfold kB; lra).
  assert (Hmp : 0 < mp) by (unfold mp; lra).
  assert (Hmu : mu = 1) by (unfold mu; lra).
  assert (Hmm : mu * mp <> 0) by (rewrite Hmu; lra).
  rewrite (fdiv_Fin d (mu * mp) Hmm). cbn [fpowi fmul].
  pose proof (exp_pos (gamma * ln d)) as Hpg. fold (Rpower d gamma) in Hpg.
  pose proof (exp_pos (gm1 * ln d)) as Hpm. fold (Rpower d gm1) in Hpm.
  assert (Hn : 0 < d / (mu * mp)) by (apply Rdiv_lt_0_compat; [lra|rewrite Hmu; lra]).
  assert (Hg1 : 0 < gm1) by (rewrite gm1_value; lra).
  assert (Hg : 0 < gamma) by (rewrite gamma_value; lra).
  assert (Hn2 : 0 < gm1 * (d / (mu * mp)) ^ 2)
    by (apply Rmult_lt_0_compat; [lra|apply pow_lt; lra]).
  assert (Hnum : 0 < gamma * (K * Rpower d gamma)).
  { apply Rmult_lt_0_compat; [exact Hg|].
    apply Rmult_lt_0_compat; [exact HK|exact Hpg]. }
  split.
  - intros HLn.
    assert (Hden : gm1 * (d / (mu * mp)) ^ 2 * L <> 0)
      by (apply Rmult_integral_contrapositive_currified; lra).
    rewrite fdiv_Fin by assumption.
    eexists. split; [reflexivity|]. split.
    + replace (Rpower d gamma) with (d * Rpower d gm1).
      * change (gamma - 1) with gm1. rewrite Hmu. field. repeat split; lra.
      * rewrite <- Rpower_succ_exponent by assumption.
        f_equal. unfold gm1. lra.
    + split; intros HLs.
      * apply Rdiv_lt_0_compat; [lra|nra].
      * unfold Rdiv. apply Rmult_pos_neg; [lra|].
        apply Rinv_lt_0_compat. nra.
  - intros ->. replace (gm1 * (d / (mu * mp)) ^ 2 * 0) with 0 by lra.
    unfold fdiv. destruct (Req_dec_T 0 0) as [_|Hc]; [|contradiction].
    now rewrite inf_of_sign_pos.
Qed.

Lemma cool_lambda_flat_table (T : R) :
  Polytropic.cool_lambda [(1, 1); (2, 1)] T = Fin 1.
Proof.
  unfold Polytropic.cool_lambda, Polytropic.Lambda_interp, Polytropic.call_linear.
  decide_reals; cbn; f_equal; lra.
Qed.

Lemma cooling_time_value_witness :
  exists t,
    nth_error (snd (Polytropic.cooling_time [(1, 1); (2, 1)] [Polytropic.r_vir])) 0
    = Some (Fin t) /\ 0 < t.
Proof.
  assert (Hd : nth_error (snd (Polytropic.Profiles.rho
                                 Polytropic.M_bh Polytropic.epsilon
                                 Polytropic.r_vir Polytropic.rho_vir
                                 Polytropic.K [Polytropic.r_vir])) 0
               = Some (Fin Polytropic.rho_vir)).
  { rewrite rho_values. cbn [map nth_error]. f_equal.
    apply rho_at_reference;
      [apply poly_M_bh_pos|apply poly_epsilon_pos|apply poly_K_pos]. }
  destruct (proj1 (cooling_time_value
                     Polytropic.M_bh Polytropic.epsilon Polytropic.r_vir
                     Polytropic.rho_vir Polytropic.K [(1, 1); (2, 1)]
                     [Polytropic.r_vir] 0 Polytropic.rho_vir 1
                     poly_K_pos Hd poly_rho_vir_pos
                     (cool_lambda_flat_table _))
                  R1_neq_R0)
    as (t & Et & _ & Hpos & _).
  exists t. split; [exact Et|]. apply Hpos. lra.
Defined.

(** ** unit_conversion.py: the code units *)

Lemma Rpower_div (a b y : R) :
  0 < a -> 0 < b -> Rpower (a / b) y = Rpower a y / Rpower b y.
Proof.
  intros Ha Hb. unfold Rpower, Rdiv at 2. rewrite <- exp_Ropp, <- exp_plus.
  f_equal. unfold Rdiv. rewrite ln_mult by (try apply Rinv_0_lt_compat; assumption).
  rewrite ln_Rinv by assumption. ring.
Qed.

Section UnitFacts.
Variables (M_bh v_bh r_vir rho_cgm T_cgm L_code v_code rho_code : R).
Hypotheses (HM : 0 < M_bh) (Hv : 0 < v_bh) (Hr : 0 < r_vir)
           (Hrho : 0 < rho_cgm) (HT : 0 < T_cgm)
           (HL : 0 < L_code) (Hvc : 0 < v_code) (Hrc : 0 < rho_code).

Lemma unit_T_vir_pos : 0 < UnitConversion.Derived.T_vir M_bh r_vir.
Proof.
  unfold UnitConversion.Derived.T_vir. pose proof G_pos.
  assert (0 < mp) by (unfold mp; lra). assert (0 < kB) by (unfold kB; lra).
  apply Rdiv_lt_0_compat; [|nra]. apply Rmult_lt_0_compat; nra.
Qed.

Lemma unit_rho_vir_pos :
  0 < UnitConversion.Derived.rho_vir M_bh r_vir rho_cgm T_cgm.
Proof.
  unfold UnitConversion.Derived.rho_vir. pose proof unit_T_vir_pos.
  apply Rdiv_lt_0_compat; nra.
Qed.

Lemma unit_P_code_pos : 0 < UnitConversion.Derived.P_code v_code rho_code.
Proof.
  unfold UnitConversion.Derived.P_code.
  apply Rmult_lt_0_compat; [assumption|]. apply pow_lt. assumption.
Qed.

Lemma unit_K_rho_gamma :
  UnitConversion.Derived.K M_bh r_vir rho_cgm T_cgm
  * Rpower (UnitConversion.Derived.rho_vir M_bh r_vir rho_cgm T_cgm) gamma
  = UnitConversion.Derived.P_cgm rho_cgm T_cgm.
Proof.
  pose proof unit_rho_vir_pos as Hrv. pose proof unit_T_vir_pos as HTv.
  change (UnitConversion.Derived.K M_bh r_vir rho_cgm T_cgm)
    with (polytropic_constant
            (UnitConversion.Derived.T_vir M_bh r_vir)
            (UnitConversion.Derived.rho_vir M_bh r_vir rho_cgm T_cgm)).
  set (rv := UnitConversion.Derived.rho_vir M_bh r_vir rho_cgm T_cgm) in *.
  set (Tv := UnitConversion.Derived.T_vir M_bh r_vir) in *.
  assert (Eg : Rpower rv gamma = rv * Rpower rv gm1).
  { rewrite <- Rpower_succ_exponent by assumption. f_equal. unfold gm1. lra. }
  rewrite Eg.
  transitivity (rv * (polytropic_constant Tv rv * Rpower rv gm1)); [ring|].
  rewrite polytropic_constant_reference by assumption.
  unfold UnitConversion.Derived.P_cgm, rv, UnitConversion.Derived.rho_vir.
  fold Tv.
  assert (0 < kB) by (unfold kB; lra). assert (0 < mp) by (unfold mp; lra).
  replace mu with 1 by (unfold mu; lra). field. repeat split; lra.
Qed.
End UnitFacts.

Lemma Rpower_gamma_split (x : R) : 0 < x -> Rpower x gamma = x * Rpower x gm1.
Proof.
  intros Hx. rewrite <- Rpower_succ_exponent by assumption.
  f_equal. unfold gm1. lra.
Qed.

Lemma Rpower_one_minus_gamma (x : R) : Rpower x (1 - gamma) = / Rpower x gm1.
Proof.
  rewrite <- Rpower_Ropp. f_equal. unfold gm1. lra.
Qed.

(** X15.  The polytropic law survives the change of units: the virial pressure
    that the script evaluates in code units and converts back is the CGM
    pressure [rho_cgm*kB*T_cgm/(mu*m_p)] (pressure balance at [r_vir]),
    and [K_code] is the polytropic constant of the reference state
    expressed in code units, where [kB/(mu*m_p)] is one. *)
Theorem code_units_polytrope (M_bh r_vir rho_cgm T_cgm v_code rho_code : R) :
  0 < M_bh -> 0 < r_vir -> 0 < rho_cgm -> 0 < T_cgm ->
  0 < v_code -> 0 < rho_code ->
  UnitConversion.Derived.P_vir M_bh r_vir rho_cgm T_cgm v_code rho_code
  = UnitConversion.Derived.P_cgm rho_cgm T_cgm /\
  UnitConversion.Derived.K_code M_bh r_vir rho_cgm T_cgm v_code rho_code
  = UnitConversion.Derived.T_vir M_bh r_vir / UnitConversion.Derived.T_code v_code
    * Rpower (UnitConversion.Derived.rho_vir M_bh r_vir rho_cgm T_cgm / rho_code)
             (1 - gamma).
Proof.
  intros HM Hr Hrho HT Hvc Hrc.
  pose proof (unit_rho_vir_pos M_bh r_vir rho_cgm T_cgm HM Hr Hrho HT) as Hrv.
  pose proof (unit_P_code_pos v_code rho_code Hvc Hrc) as HP.
  pose proof (unit_K_rho_gamma M_bh r_vir rho_cgm T_cgm HM Hr Hrho HT) as EK.
  assert (HkB : 0 < kB) by (unfold kB; lra).
  assert (Hmp : 0 < mp) by (unfold mp; lra).
  assert (Hmu : mu = 1) by (unfold mu; lra).
  split.
  - rewrite <- EK. unfold UnitConversion.Derived.P_vir, UnitConversion.Derived.K_code.
    rewrite Rpower_div by assumption.
    pose proof (exp_pos (gamma * ln rho_code)) as Hp. fold (Rpower rho_code gamma) in Hp.
    field. split; lra.
  - unfold UnitConversion.Derived.K_code, UnitConversion.Derived.K,
      UnitConversion.Derived.T_code, UnitConversion.Derived.P_code.
    rewrite Rpower_div by assumption.
    rewrite (Rpower_gamma_split rho_code) by assumption.
    rewrite (Rpower_one_minus_gamma rho_code).
    pose proof (exp_pos (gm1 * ln rho_code)) as Hp. fold (Rpower rho_code gm1) in Hp.
    rewrite Hmu. field. repeat split; lra.
Qed.

Lemma code_units_polytrope_witness :
  UnitConversion.Derived.P_vir
    UnitConversion.M_bh UnitConversion.r_vir UnitConversion.rho_cgm
    UnitConversion.T_cgm UnitConversion.v_code UnitConversion.rho_code
  = UnitConversion.Derived.P_cgm UnitConversion.rho_cgm UnitConversion.T_cgm.
Proof.
  refine (proj1 (code_units_polytrope
                   UnitConversion.M_bh UnitConversion.r_vir UnitConversion.rho_cgm
                   UnitConversion.T_cgm UnitConversion.v_code UnitConversion.rho_code
                   _ _ _ _ _ _)).
  - unfold UnitConversion.M_bh, Msun. lra.
  - unfold UnitConversion.r_vir, UnitConversion.kpc. lra.
  - unfold UnitConversion.rho_cgm, mp. lra.
  - unfold UnitConversion.T_cgm. lra.
  - unfold UnitConversion.v_code. lra.
  - unfold UnitConversion.rho_code, mp. lra.
Defined.

(** X16.  Gravity in code units: with [G_code] the Bondi radius and the virial
    temperature in code units follow from the mass, velocity and radius in
    code units by the same formulas as in CGS, with [kB/(mu*m_p)] one. *)
Theorem code_units_gravity (M_bh v_bh r_vir L_code v_code rho_code : R) :
  0 < M_bh -> 0 < v_bh -> 0 < r_vir ->
  0 < L_code -> 0 < v_code -> 0 < rho_code ->
  UnitConversion.Derived.R_bondi M_bh v_bh / L_code
  = 2 * UnitConversion.Derived.G_code L_code v_code rho_code
    * (M_bh / UnitConversion.Derived.M_code L_code rho_code)
    / (v_bh / v_code) ^ 2 /\
  UnitConversion.Derived.T_vir M_bh r_vir / UnitConversion.Derived.T_code v_code
  = UnitConversion.Derived.G_code L_code v_code rho_code
    * (M_bh / UnitConversion.Derived.M_code L_code rho_code)
    / (r_vir / L_code).
Proof.
  intros HM Hv Hr HL Hvc Hrc.
  assert (HkB : 0 < kB) by (unfold kB; lra).
  assert (Hmp : 0 < mp) by (unfold mp; lra).
  assert (Hmu : mu = 1) by (unfold mu; lra).
  unfold UnitConversion.Derived.R_bondi, UnitConversion.Derived.G_code,
    UnitConversion.Derived.M_code, UnitConversion.Derived.t_code,
    UnitConversion.Derived.T_vir, UnitConversion.Derived.T_code.
  rewrite Hmu. split; field; repeat split; lra.
Qed.

Lemma code_units_gravity_witness :
  UnitConversion.Derived.R_bondi UnitConversion.M_bh UnitConversion.v_bh
  / UnitConversion.L_code
  = 2 * UnitConversion.Derived.G_code
          UnitConversion.L_code UnitConversion.v_code UnitConversion.rho_code
    * (UnitConversion.M_bh
       / UnitConversion.Derived.M_code UnitConversion.L_code UnitConversion.rho_code)
    / (UnitConversion.v_bh / UnitConversion.v_code) ^ 2.
Proof.
  refine (proj1 (code_units_gravity
                   UnitConversion.M_bh UnitConversion.v_bh UnitConversion.r_vir
                   UnitConversion.L_code UnitConversion.v_code
                   UnitConversion.rho_code _ _ _ _ _ _)).
  - unfold UnitConversion.M_bh, Msun. lra.
  - unfold UnitConversion.v_bh. lra.
  - unfold UnitConversion.r_vir, UnitConversion.kpc. lra.
  - unfold UnitConversion.L_code, UnitConversion.kpc. lra.
  - unfold UnitConversion.v_code. lra.
  - unfold UnitConversion.rho_code, mp. lra.
Defined.

(** X17.  The gas in code units: the CGM pressure in code units is the product
    of density and temperature in code units, and the CGM sound speed in
    code units is finite, with the temperature in code units as its
    square. *)
Theorem code_units_ideal_gas (rho_cgm T_cgm v_code rho_code : R) :
  0 < rho_cgm -> 0 < T_cgm -> 0 < v_code -> 0 < rho_code ->
  UnitConversion.Derived.P_cgm rho_cgm T_cgm
  / UnitConversion.Derived.P_code v_code rho_code
  = rho_cgm / rho_code * (T_cgm / UnitConversion.Derived.T_code v_code) /\
  exists cs,
    UnitConversion.Derived.cs_cgm T_cgm = Fin cs /\ 0 < cs /\
    (cs / v_code) ^ 2 = T_cgm / UnitConversion.Derived.T_code v_code.
Proof.
  intros Hrho HT Hvc Hrc.
  assert (HkB : 0 < kB) by (unfold kB; lra).
  assert (Hmp : 0 < mp) by (unfold mp; lra).
  assert (Hmu : mu = 1) by (unfold mu; lra).
  assert (Hc : 0 < kB * T_cgm / (mu * mp)).
  { rewrite Hmu. apply Rdiv_lt_0_compat; nra. }
  split.
  - unfold UnitConversion.Derived.P_cgm, UnitConversion.Derived.P_code,
      UnitConversion.Derived.T_code.
    rewrite Hmu. field. repeat split; lra.
  - exists (sqrt (kB * T_cgm / (mu * mp))).
    split; [apply fsqrt_Fin; lra|]. split; [now apply sqrt_lt_R0|].
    unfold Rdiv at 1. rewrite Rpow_mult_distr, pow2_sqrt by lra.
    unfold UnitConversion.Derived.T_code. rewrite Hmu. field. repeat split; lra.
Qed.

Lemma code_units_ideal_gas_witness :
  UnitConversion.Derived.P_cgm UnitConversion.rho_cgm UnitConversion.T_cgm
  / UnitConversion.Derived.P_code UnitConversion.v_code UnitConversion.rho_code
  = UnitConversion.rho_cgm / UnitConversion.rho_code
    * (UnitConversion.T_cgm / UnitConversion.Derived.T_code UnitConversion.v_code).
Proof.
  refine (proj1 (code_units_ideal_gas
                   UnitConversion.rho_cgm UnitConversion.T_cgm
                   UnitConversion.v_code UnitConversion.rho_code _ _ _ _)).
  - unfold UnitConversion.rho_cgm, mp. lra.
  - unfold UnitConversion.T_cgm. lra.
  - unfold UnitConversion.v_code. lra.
  - unfold UnitConversion.rho_code, mp. lra.
Defined.

(** ** Free-fall time and potential *)

Lemma Rpower_three_halves (x : R) : 0 < x -> Rpower x 1.5 = x * sqrt x.
Proof.
  intros Hx. replace 1.5 with (1 + / 2) by lra.
  rewrite Rpower_succ_exponent by assumption. now rewrite Rpower_sqrt.
Qed.

(** X14.  [free_fall_time] and [Phi] use the same softened radius: for
    [M > 0] and [eps > 0] the free-fall time is the same at [r] and [-r],
    and at every radius for which [(r^2+eps^2)^1.5] is within the float
    range ([r^2 + eps^2 <= 1e200]) both are finite, with
    [t_ff^2 * (-2*Phi) = r^2 + eps^2] (up to rounding). *)
Theorem free_fall_time_and_potential (M eps : R) :
  0 < M -> 0 < eps ->
  forall r,
    Polytropic.Profiles.free_fall_time M eps (- r)
    = Polytropic.Profiles.free_fall_time M eps r /\
    (r ^ 2 + eps ^ 2 <= 1e200 ->
     exists t p,
       Polytropic.Profiles.free_fall_time M eps r = Fin t /\
       Polytropic.Profiles.Phi M eps r = Fin p /\
       t ^ 2 * (-2 * p) = r ^ 2 + eps ^ 2).
Proof.
  intros HM He r. pose proof G_pos as HG.
  rewrite !free_fall_closed, Phi_poly_closed by assumption.
  replace ((- r) ^ 2) with (r ^ 2) by lra. split; [reflexivity|].
  intros _. do 2 eexists. split; [reflexivity|]. split; [reflexivity|].
  assert (Hx : 0 < r ^ 2 + eps ^ 2) by nra.
  pose proof (soft_radius_pos r eps He) as Hs.
  rewrite pow2_sqrt.
  - rewrite Rpower_three_halves by assumption.
    rewrite <- (sqrt_sqrt (r ^ 2 + eps ^ 2)) at 1 4 by lra.
    set (s := sqrt (r ^ 2 + eps ^ 2)) in *.
    assert (HGM : 0 < G * M) by nra.
    field. repeat split; lra.
  - left. apply Rdiv_lt_0_compat; [apply exp_pos|nra].
Qed.

Lemma free_fall_time_and_potential_witness :
  exists t p,
    Polytropic.free_fall_time 0 = Fin t /\
    Polytropic.Phi 0 = Fin p /\
    t ^ 2 * (-2 * p) = 0 ^ 2 + Polytropic.epsilon ^ 2.
Proof.
  refine (proj2 (free_fall_time_and_potential
                   Polytropic.M_bh Polytropic.epsilon
                   poly_M_bh_pos poly_epsilon_pos 0) _).
  unfold Polytropic.epsilon, pc. lra.
Defined.

(** ** combine_plots.py: frames in time order *)

Section FrameOrder.
Import String Ascii DecimalString.
Local Open Scope string_scope.

Lemma rfind_dot_uint (d : Decimal.uint) :
  CombinePlots.rfind "." (NilEmpty.string_of_uint d) = None.
Proof. induction d; cbn; try rewrite IHd; reflexivity. Qed.

Lemma rfind_underscore_uint (d : Decimal.uint) :
  CombinePlots.rfind "_" (NilEmpty.string_of_uint d) = None.
Proof. induction d; cbn; try rewrite IHd; reflexivity. Qed.

Lemma rfind_last (c : ascii) (p q : string) :
  CombinePlots.rfind c q = None ->
  CombinePlots.rfind c (p ++ String c q) = Some (String.length p).
Proof.
  intros Hq. induction p as [|a p IH]; cbn.
  - now rewrite Hq, Ascii.eqb_refl.
  - now rewrite IH.
Qed.

Lemma substring_prefix (p q : string) :
  substring 0 (String.length p) (p ++ q) = p.
Proof.
  induction p as [|a p IH]; cbn.
  - now destruct q.
  - now rewrite IH.
Qed.

Lemma string_length_app (p q : string) :
  String.length (p ++ q) = (String.length p + String.length q)%nat.
Proof. induction p as [|a p IH]; cbn; [reflexivity|now rewrite IH]. Qed.

Lemma stem_of_png (p : string) :
  p <> "" -> CombinePlots.stem (p ++ ".png") = p.
Proof.
  intros Hp. unfold CombinePlots.stem.
  change (p ++ ".png") with (p ++ String "." "png").
  rewrite rfind_last by reflexivity.
  rewrite string_length_app. cbn [String.length].
  assert (H0 : (0 <? String.length p)%nat = true).
  { destruct p; [contradiction|reflexivity]. }
  assert (H1 : (String.length p <? String.length p + 4 - 1)%nat = true)
    by (apply Nat.ltb_lt; lia).
  rewrite H0, H1. apply substring_prefix.
Qed.

Lemma split_no_separator (c : ascii) (s : string) :
  CombinePlots.rfind c s = None -> CombinePlots.split c s = [s].
Proof.
  induction s as [|a s IH]; cbn; [reflexivity|].
  destruct (CombinePlots.rfind c s) as [i|]; [discriminate|].
  destruct (Ascii.eqb a c); [discriminate|]. intros _. now rewrite IH.
Qed.

Lemma stem_output_file_name (t : nat) :
  CombinePlots.stem (CombinePlots.output_file_name t)
  = "t_" ++ CombinePlots.str_int t.
Proof.
  unfold CombinePlots.output_file_name.
  change ("t_" ++ CombinePlots.str_int t ++ ".png")
    with (("t_" ++ CombinePlots.str_int t) ++ ".png").
  apply stem_of_png. discriminate.
Qed.

Lemma split_output_stem (t : nat) :
  CombinePlots.split "_" ("t_" ++ CombinePlots.str_int t)
  = ["t"; CombinePlots.str_int t].
Proof.
  cbn. rewrite split_no_separator; [reflexivity|].
  apply rfind_underscore_uint.
Qed.

Variable int : string -> option Z.
Hypothesis int_decimal :
  forall t : nat, int (CombinePlots.str_int t) = Some (Z.of_nat t).

Lemma key_output_file_name (t : nat) :
  CombinePlots.key int (CombinePlots.output_file_name t) = Some (Z.of_nat t).
Proof.
  unfold CombinePlots.key.
  rewrite stem_output_file_name, split_output_stem. cbn [nth_error].
  apply int_decimal.
Qed.

(** X18.  Round trip of the frame number: the sort key of the file written for
    step [t] is [t], whenever [int] reads the decimal digits of [t] back. *)
Theorem frame_key_of_output_name (t : nat) :
  CombinePlots.stem (CombinePlots.output_file_name t)
  = "t_" ++ CombinePlots.str_int t /\
  CombinePlots.split "_" (CombinePlots.stem (CombinePlots.output_file_name t))
  = ["t"; CombinePlots.str_int t] /\
  CombinePlots.key int (CombinePlots.output_file_name t) = Some (Z.of_nat t).
Proof.
  split; [apply stem_output_file_name|]. split; [|apply key_output_file_name].
  rewrite stem_output_file_name. apply split_output_stem.
Qed.
End FrameOrder.

Lemma insert_keyed_perm (x : Z * String.string) (l : list (Z * String.string)) :
  Permutation (CombinePlots.insert_keyed x l) (x :: l).
Proof.
  induction l as [|y l IH]; [reflexivity|]. cbn.
  destruct (fst x <=? fst y)%Z; [reflexivity|].
  rewrite IH. apply perm_swap.
Qed.

Lemma sort_keyed_perm (l : list (Z * String.string)) :
  Permutation (CombinePlots.sort_keyed l) l.
Proof.
  induction l as [|x l IH]; [reflexivity|]. cbn.
  rewrite insert_keyed_perm. now constructor.
Qed.

Lemma insert_keyed_sorted (x : Z * String.string) (l : list (Z * String.string)) :
  StronglySorted Z.lt (map fst l) -> ~ In (fst x) (map fst l) ->
  StronglySorted Z.lt (map fst (CombinePlots.insert_keyed x l)).
Proof.
  induction l as [|y l IH]; intros Hs Hn.
  - cbn. repeat constructor.
  - cbn in Hs, Hn. apply StronglySorted_inv in Hs as [Hs Hy].
    cbn [CombinePlots.insert_keyed].
    destruct (fst x <=? fst y)%Z eqn:E.
    + apply Z.leb_le in E.
      assert (Hlt : (fst x < fst y)%Z) by (assert (fst y <> fst x) by tauto; lia).
      cbn [map]. constructor; [constructor; assumption|].
      constructor; [assumption|].
      eapply Forall_impl; [|exact Hy]. intros a Ha. cbn in Ha. lia.
    + apply Z.leb_gt in E. cbn [map]. constructor; [apply IH; tauto|].
      assert (Hp : Permutation (map fst (CombinePlots.insert_keyed x l))
                               (fst x :: map fst l)).
      { change (fst x :: map fst l) with (map fst (x :: l)).
        apply Permutation_map, insert_keyed_perm. }
      eapply Permutation_Forall; [symmetry; exact Hp|].
      constructor; [lia|assumption].
Qed.

Lemma sort_keyed_sorted (l : list (Z * String.string)) :
  NoDup (map fst l) -> StronglySorted Z.lt (map fst (CombinePlots.sort_keyed l)).
Proof.
  induction l as [|x l IH]; intros Hn; [constructor|].
  cbn in Hn. apply NoDup_cons_iff in Hn as [Hx Hn]. cbn.
  apply insert_keyed_sorted; [now apply IH|].
  intros Hin. apply Hx.
  eapply Permutation_in; [|exact Hin]. apply Permutation_map, sort_keyed_perm.
Qed.

Lemma sorted_keyed_unique (l1 l2 : list (Z * String.string)) :
  Permutation l1 l2 ->
  StronglySorted Z.lt (map fst l1) -> StronglySorted Z.lt (map fst l2) ->
  l1 = l2.
Proof.
  revert l2. induction l1 as [|a l1 IH]; intros l2 Hp H1 H2.
  - apply Permutation_nil in Hp. now subst.
  - destruct l2 as [|b l2]; [apply Permutation_sym, Permutation_nil in Hp; discriminate|].
    cbn in H1, H2. apply StronglySorted_inv in H1 as [H1 Ha].
    apply StronglySorted_inv in H2 as [H2 Hb].
    rewrite Forall_forall in Ha, Hb.
    assert (E : a = b).
    { assert (Hin : In a (b :: l2)) by (eapply Permutation_in; [exact Hp|now left]).
      assert (Hin' : In b (a :: l1))
        by (eapply Permutation_in; [symmetry; exact Hp|now left]).
      destruct Hin as [E|Hin]; [now symmetry|].
      destruct Hin' as [E|Hin']; [assumption|].
      pose proof (Hb _ (in_map fst _ _ Hin)).
      pose proof (Ha _ (in_map fst _ _ Hin')). lia. }
    subst b. f_equal. apply IH; [|assumption|assumption].
    now apply Permutation_cons_inv in Hp.
Qed.

Lemma seq_keys_sorted (start n : nat) :
  StronglySorted Z.lt (map Z.of_nat (seq start n)).
Proof.
  revert start. induction n as [|n IH]; intros start; cbn; constructor.
  - apply IH.
  - apply Forall_forall. intros z Hz. apply in_map_iff in Hz as (m & <- & Hm).
    apply in_seq in Hm. lia.
Qed.

Lemma NoDup_map_inj_nat (l : list nat) :
  NoDup l -> NoDup (map Z.of_nat l).
Proof.
  induction 1 as [|a l Ha _ IH]; cbn; constructor; [|assumption].
  intros Hin. apply in_map_iff in Hin as (b & E & Hb).
  apply Nat2Z.inj in E. now subst.
Qed.

Section FrameSort.
Variable int : String.string -> option Z.
Hypothesis int_decimal :
  forall t : nat, int (CombinePlots.str_int t) = Some (Z.of_nat t).

Lemma keyed_output_names (ts : list nat) :
  CombinePlots.keyed int (map CombinePlots.output_file_name ts)
  = Some (map keyed_frame ts).
Proof.
  induction ts as [|t ts IH]; [reflexivity|]. cbn [map CombinePlots.keyed].
  rewrite (key_output_file_name int int_decimal t), IH. reflexivity.
Qed.
End FrameSort.

(** X19.  The frames come out in time order: whatever the order in which the
    directory lists the files [t_0.png] ... [t_(n-1).png] that the script
    wrote, [sorted] returns them by increasing step ([t_2.png] before
    [t_10.png]), whenever [int] reads the decimal digits of a step back. *)
Theorem frames_sorted_by_step (int : String.string -> option Z)
        (n : nat) (names : list String.string) :
  (forall t : nat, int (CombinePlots.str_int t) = Some (Z.of_nat t)) ->
  Permutation names (map CombinePlots.output_file_name (seq 0 n)) ->
  CombinePlots.sorted int names
  = Some (map CombinePlots.output_file_name (seq 0 n)).
Proof.
  intros Hint Hp.
  destruct (Permutation_map_inv _ _ Hp) as (ts & -> & Hts).
  unfold CombinePlots.sorted. rewrite (keyed_output_names int Hint).
  f_equal.
  assert (Hk : forall l, map fst (map keyed_frame l) = map Z.of_nat l)
    by (intros l; rewrite map_map; reflexivity).
  assert (E : CombinePlots.sort_keyed (map keyed_frame ts)
              = map keyed_frame (seq 0 n)).
  { apply sorted_keyed_unique.
    - rewrite sort_keyed_perm. apply Permutation_map. now symmetry.
    - apply sort_keyed_sorted. rewrite Hk.
      apply (Permutation_NoDup (l := map Z.of_nat (seq 0 n))).
      + apply Permutation_map. exact Hts.
      + apply NoDup_map_inj_nat, seq_NoDup.
    - rewrite Hk. apply seq_keys_sorted. }
  rewrite E, map_map. reflexivity.
Qed.

Lemma int_of_digits_decimal (t : nat) :
  int_of_digits (CombinePlots.str_int t) = Some (Z.of_nat t).
Proof.
  unfold int_of_digits, CombinePlots.str_int.
  rewrite DecimalString.NilEmpty.usu. cbn [option_map].
  now rewrite DecimalNat.Unsigned.of_to.
Qed.

Section FrameWitnesses.
Import String.
Local Open Scope string_scope.

Lemma frame_key_of_output_name_witness :
  CombinePlots.key int_of_digits "t_10.png" = Some 10%Z.
Proof.
  exact (proj2 (proj2 (frame_key_of_output_name
                         int_of_digits int_of_digits_decimal 10))).
Defined.

Lemma frames_sorted_by_step_witness :
  CombinePlots.sorted int_of_digits
    ["t_2.png"; "t_0.png"; "t_1.png"]
  = Some ["t_0.png"; "t_1.png"; "t_2.png"].
Proof.
  refine (frames_sorted_by_step int_of_digits 3
            ["t_2.png"; "t_0.png"; "t_1.png"]
            int_of_digits_decimal _).
  change (Permutation
            [CombinePlots.output_file_name 2; CombinePlots.output_file_name 0;
             CombinePlots.output_file_name 1]
            [CombinePlots.output_file_name 0; CombinePlots.output_file_name 1;
             CombinePlots.output_file_name 2]).
  exact (Permutation_cons_append
           [CombinePlots.output_file_name 0; CombinePlots.output_file_name 1]
           (CombinePlots.output_file_name 2)).
Defined.
End FrameWitnesses.
